(** * ConfigReader (utils.py): a shallow embedding and its properties

    The development follows [utils.py]: the [ConfigReader] class with its
    line parser [read_config], the value parsers [listparse], [stringparse],
    [numberparse] and [boolparse], and the accessors [get] and [set]; then
    the prompt [loop_input] and the stopwatch [Timer].

    Python values are an inductive type, Python [str] is [string] (its
    characters are the code points below 256), Python [float] is the IEEE
    binary64 format of [SpecFloat], a [dict] is a [gmap], and exceptions,
    [sys.exit] and [print] are an explicit outcome and an output trace. *)

From Stdlib Require Import ZArith List String Ascii Bool Lia QArith.
From Stdlib Require Import Floats.SpecFloat.
From stdpp Require Import base option gmap strings.

Import ListNotations.
Local Open Scope Z_scope.

(** ** Characters and the string operations of Python that the code uses *)

Module PyStr.

Definition code (c : ascii) : N := N_of_ascii c.

(** The two quotation marks and the newline. *)
Definition dquote : ascii := "034"%char.
Definition squote : ascii := "'"%char.
Definition newline : ascii := "010"%char.

(** [str.isspace] on one character below 256: TAB..CR, FS..US, space,
    NEL and the no-break space.  [str.split], [str.rstrip] and the
    regular-expression class [\s] all use it. *)
Definition isspace (c : ascii) : bool :=
  let n := code c in
  ((9 <=? n) && (n <=? 13) || (28 <=? n) && (n <=? 32)
   || (n =? 133) || (n =? 160))%N.

Definition is_quote (c : ascii) : bool :=
  Ascii.eqb c dquote || Ascii.eqb c squote.

(** [s.rstrip()] *)
Fixpoint rstrip (s : string) : string :=
  match s with
  | EmptyString => EmptyString
  | String c s' =>
      match rstrip s' with
      | EmptyString => if isspace c then EmptyString else String c EmptyString
      | r => String c r
      end
  end.

(** [s.split()]: the maximal runs of non-whitespace characters. *)
Fixpoint split (s : string) : list string :=
  match s with
  | EmptyString => []
  | String c s' =>
      if isspace c then split s'
      else match s' with
           | EmptyString => [String c EmptyString]
           | String c' _ =>
               if isspace c' then String c EmptyString :: split s'
               else match split s' with
                    | w :: ws => String c w :: ws
                    | [] => [String c EmptyString]
                    end
           end
  end.

(** [s.startswith(c)] for a one-character prefix. *)
Definition startswith (s : string) (c : ascii) : bool :=
  match s with
  | String c' _ => Ascii.eqb c' c
  | EmptyString => false
  end.

(** [s[1:]] *)
Definition drop_first (s : string) : string :=
  match s with
  | String _ s' => s'
  | EmptyString => EmptyString
  end.

(** [s[:-1]] *)
Fixpoint drop_last (s : string) : string :=
  match s with
  | EmptyString => EmptyString
  | String c s' =>
      match s' with
      | EmptyString => EmptyString
      | String _ _ => String c (drop_last s')
      end
  end.

(** [sep.join(words)] *)
Fixpoint join (sep : string) (words : list string) : string :=
  match words with
  | [] => EmptyString
  | [w] => w
  | w :: ws => String.append w (String.append sep (join sep ws))
  end.

Definition chars (s : string) : list ascii := list_ascii_of_string s.
Definition of_chars (l : list ascii) : string := string_of_list_ascii l.

End PyStr.

(** ** Python floats: [float(str)], [int(float)] and [int == float] *)

Module PyFloat.
Import PyStr.

Definition prec : Z := 53.
Definition emax : Z := 1024.

(** The whitespace [float()] strips: the ASCII class of [Py_ISSPACE]
    and the two non-ASCII spaces below 256, which the conversion to
    ASCII turns into blanks (FS..US are left alone and make the parse
    fail). *)
Definition fspace (c : ascii) : bool :=
  let n := code c in
  ((9 <=? n) && (n <=? 13) || (n =? 32) || (n =? 133) || (n =? 160))%N.

Definition is_digit (c : ascii) : bool :=
  let n := code c in ((48 <=? n) && (n <=? 57))%N.

Definition digit_val (c : ascii) : Z := Z.of_N (code c) - 48.

Definition lower (c : ascii) : ascii :=
  let n := code c in
  if ((65 <=? n) && (n <=? 90))%N then ascii_of_N (n + 32) else c.

Fixpoint lstrip (s : list ascii) : list ascii :=
  match s with
  | c :: s' => if fspace c then lstrip s' else s
  | [] => []
  end.

Definition strip (s : list ascii) : list ascii :=
  rev (lstrip (rev (lstrip s))).

(** Underscores (Python 3.6): allowed only between two digits, and
    removed before the number is read.  [prev] is the character before
    the current one. *)
Fixpoint strip_underscores (prev : option ascii) (s : list ascii)
  : option (list ascii) :=
  let prev_digit := match prev with Some p => is_digit p | None => false end in
  match s with
  | [] =>
      match prev with
      | Some p => if Ascii.eqb p "_" then None else Some []
      | None => Some []
      end
  | c :: s' =>
      if Ascii.eqb c "_" then
        if prev_digit then strip_underscores (Some c) s' else None
      else
        let after_us :=
          match prev with Some p => Ascii.eqb p "_" | None => false end in
        if after_us && negb (is_digit c) then None
        else option_map (cons c) (strip_underscores (Some c) s')
  end.

(** A maximal run of decimal digits and the rest of the input. *)
Fixpoint span_digits (s : list ascii) : list ascii * list ascii :=
  match s with
  | c :: s' =>
      if is_digit c then let (d, r) := span_digits s' in (c :: d, r)
      else ([], s)
  | [] => ([], [])
  end.

Definition digits_value (ds : list ascii) : Z :=
  fold_left (fun acc c => 10 * acc + digit_val c) ds 0.

(** An optional sign: [true] for a minus. *)
Definition read_sign (s : list ascii) : bool * list ascii :=
  match s with
  | c :: s' =>
      if Ascii.eqb c "-" then (true, s')
      else if Ascii.eqb c "+" then (false, s')
      else (false, s)
  | [] => (false, [])
  end.

(** The optional exponent part: [e] or [E], an optional sign and at
    least one digit, up to the end of the input. *)
Definition read_exponent (s : list ascii) : option Z :=
  match s with
  | [] => Some 0
  | c :: s' =>
      if Ascii.eqb (lower c) "e" then
        let (neg, s'') := read_sign s' in
        match span_digits s'' with
        | ((_ :: _) as ds, []) =>
            Some (if neg then - digits_value ds else digits_value ds)
        | _ => None
        end
      else None
  end.

(** The decimal [m * 10^e], correctly rounded to binary64 (to nearest,
    ties to even; overflow gives an infinity, as [float()] does). *)
Definition round_decimal (neg : bool) (m e : Z) : spec_float :=
  if m <=? 0 then S754_zero neg
  else if 0 <=? e then
    binary_normalize prec emax (cond_Zopp neg (m * 10 ^ e)) 0 neg
  else
    let '(q, e', l) := SFdiv_core_binary prec emax m 0 (10 ^ (- e)) 0 in
    binary_round_aux prec emax neg q e' l.

(** [inf], [infinity] and [nan], in any case. *)
Definition special (neg : bool) (s : list ascii) : option spec_float :=
  let w := of_chars (map lower s) in
  if String.eqb w "inf" || String.eqb w "infinity" then Some (S754_infinity neg)
  else if String.eqb w "nan" then Some S754_nan
  else None.

(** A decimal literal: digits with an optional point and at least one
    digit, then the optional exponent. *)
Definition decimal (neg : bool) (s : list ascii) : option spec_float :=
  let (ip, r) := span_digits s in
  let '(fp, r') :=
    match r with
    | c :: r1 => if Ascii.eqb c "." then span_digits r1 else ([], r)
    | [] => ([], [])
    end in
  match ip ++ fp with
  | [] => None
  | ds =>
      match read_exponent r' with
      | Some ex =>
          Some (round_decimal neg (digits_value ds) (ex - Z.of_nat (length fp)))
      | None => None
      end
  end.

(** [float(s)] for a string [s]: [None] stands for the [ValueError]. *)
Definition float_of_str (s : string) : option spec_float :=
  let cs := chars s in
  match (if existsb (Ascii.eqb "_") cs then strip_underscores None cs
         else Some cs) with
  | None => None
  | Some cs' =>
      let (neg, body) := read_sign (strip cs') in
      match special neg body with
      | Some f => Some f
      | None => decimal neg body
      end
  end.

(** [int(x)] for a float [x]: truncation toward zero; an infinity is an
    [OverflowError] and a NaN a [ValueError]. *)
Variant int_error := IntOverflow | IntNaN.

Definition int_of_float (x : spec_float) : int_error + Z :=
  match x with
  | S754_zero _ => inr 0
  | S754_infinity _ => inl IntOverflow
  | S754_nan => inl IntNaN
  | S754_finite s m e =>
      inr (cond_Zopp s (if 0 <=? e then Zpos m * 2 ^ e
                        else Zpos m / 2 ^ (- e)))
  end.

(** [n == x] for an int [n] and a float [x]: Python compares the exact
    values, without rounding [n]. *)
Definition int_eq_float (n : Z) (x : spec_float) : bool :=
  match x with
  | S754_zero _ => n =? 0
  | S754_finite s m e =>
      if 0 <=? e then n =? cond_Zopp s (Zpos m * 2 ^ e)
      else n * 2 ^ (- e) =? cond_Zopp s (Zpos m)
  | _ => false
  end.

(** The rational a finite float stands for. *)
Definition to_Q (x : spec_float) : option Q :=
  match x with
  | S754_zero _ => Some 0%Q
  | S754_finite s m e =>
      Some (if 0 <=? e then inject_Z (cond_Zopp s (Zpos m * 2 ^ e))
            else Qmake (cond_Zopp s (Zpos m)) (Z.to_pos (2 ^ (- e))))
  | _ => None
  end.

End PyFloat.

(** ** The fragment of Python's [re] that the two patterns need

    A backtracking matcher in continuation-passing style: the continuation
    is the rest of the pattern, and a [None] from it makes the construct
    before it try its next alternative, in the order Python tries them
    (a greedy star gives characters back one by one, a lazy plus takes them
    one by one). *)

Module Regex.

Inductive regex :=
| Cls (p : ascii -> bool)        (* one character of a class; [.] too *)
| Star (p : ascii -> bool)       (* [c*], greedy *)
| LazyPlus (p : ascii -> bool)   (* [c+?] *)
| Grp (r : regex)                (* the capturing group *)
| Cat (r1 r2 : regex).

Section Matcher.
Context {R : Type}.

Fixpoint star_greedy (p : ascii -> bool) (k : list ascii -> option R)
  (s : list ascii) : option R :=
  match s with
  | c :: s' =>
      if p c then
        match star_greedy p k s' with
        | Some r => Some r
        | None => k s
        end
      else k s
  | [] => k []
  end.

Fixpoint lazy_plus (p : ascii -> bool) (k : list ascii -> option R)
  (s : list ascii) : option R :=
  match s with
  | c :: s' =>
      if p c then
        match k s' with
        | Some r => Some r
        | None => lazy_plus p k s'
        end
      else None
  | [] => None
  end.

(** [g] is the text of the group so far. *)
Fixpoint matchk (r : regex) (s : list ascii) (g : option (list ascii))
  (k : list ascii -> option (list ascii) -> option R) : option R :=
  match r with
  | Cls p =>
      match s with
      | c :: s' => if p c then k s' g else None
      | [] => None
      end
  | Star p => star_greedy p (fun s' => k s' g) s
  | LazyPlus p => lazy_plus p (fun s' => k s' g) s
  | Grp r1 =>
      matchk r1 s g
        (fun s' _ => k s' (Some (firstn (length s - length s') s)))
  | Cat r1 r2 => matchk r1 s g (fun s' g' => matchk r2 s' g' k)
  end.
End Matcher.

(** A match of [r] at the start of [s]: the text of the group and the
    input after the match. *)
Definition match_at (r : regex) (s : list ascii)
  : option (list ascii * list ascii) :=
  matchk r s None (fun s' g => Some (default [] g, s')).

(** [re.findall(r, s)] for a pattern with one group: the group of every
    match, scanning from the left and resuming after each match.  [skip]
    counts the characters of the last match still to pass over.  (Both
    patterns of the module consume at least two characters, so the rules
    of [re] for empty matches never apply.) *)
Fixpoint findall_from (r : regex) (s : list ascii) (skip : nat)
  : list (list ascii) :=
  match s with
  | [] => []
  | _ :: s' =>
      match skip with
      | S n => findall_from r s' n
      | O =>
          match match_at r s with
          | Some (g, rest) =>
              g :: findall_from r s' (length s' - length rest)
          | None => findall_from r s' 0
          end
      end
  end.

Definition findall (r : regex) (s : list ascii) : list (list ascii) :=
  findall_from r s 0.

End Regex.

(** ** Values, exceptions and the effects of the module *)

#[local] Set Warnings "-register-all".
Inductive value :=
| VNone
| VBool (b : bool)
| VInt (n : Z)
| VFloat (x : spec_float)
| VStr (s : string)
| VList (l : list value)
| VTuple (l : list value).

Inductive exn :=
| ValueError
| OverflowError
| IndexError
| KeyError (key : string)
| FileNotFoundError
| SystemExit.

Inductive result (A : Type) :=
| Ok (a : A)
| Raise (e : exn).
Arguments Ok {A} a.
Arguments Raise {A} e.

#[global] Instance result_ret : MRet result := @Ok.
#[global] Instance result_bind : MBind result :=
  fun A B f m => match m with Ok a => f a | Raise e => Raise e end.

(** A computation that prints: it takes the lines printed so far and gives
    them back with its own added; they survive an exception. *)
Definition io (A : Type) : Type := list string -> result A * list string.

#[global] Instance io_ret : MRet io := fun A a out => (Ok a, out).
#[global] Instance io_bind : MBind io :=
  fun A B f m out =>
    match m out with
    | (Ok a, out') => f a out'
    | (Raise e, out') => (Raise e, out')
    end.

Definition print (msg : string) : io unit := fun out => (Ok tt, out ++ [msg]).
Definition raise {A} (e : exn) : io A := fun out => (Raise e, out).
Definition lift {A} (m : result A) : io A := fun out => (m, out).

(** ** The class [ConfigReader] *)

Module ConfigReader.
Import PyStr PyFloat Regex.
Local Open Scope string_scope.

(** [bool(v)] *)
Definition py_bool (v : value) : bool :=
  match v with
  | VNone => false
  | VBool b => b
  | VInt n => negb (n =? 0)%Z
  | VFloat (S754_zero _) => false
  | VFloat _ => true
  | VStr s => negb (String.eqb s "")
  | VList l | VTuple l => negb (Nat.eqb (length l) 0)
  end.

(** [v == s] for a string literal [s]: only a string equals a string. *)
Definition eq_str (v : value) (s : string) : bool :=
  match v with
  | VStr s' => String.eqb s' s
  | _ => false
  end.

(** [numberparse]: the [try] around [float] and [int], and the handler
    for [ValueError] alone. *)
Definition numberparse (string : string) : result value :=
  match float_of_str string with
  | None => Ok (VStr string)                    (* float() raised ValueError *)
  | Some floaty =>
      match int_of_float floaty with
      | inl IntNaN => Ok (VStr string)          (* int() raised ValueError *)
      | inl IntOverflow => Raise OverflowError  (* not handled *)
      | inr n =>
          if int_eq_float n floaty then Ok (VInt n) else Ok (VFloat floaty)
      end
  end.

Definition boolparse (string : value) : value :=
  if eq_str string "True" || eq_str string "False"
  then VBool (py_bool string)
  else string.

(** [stringparse]: the two assignments by index, then the join. *)
Definition stringparse (words : list string) : result value :=
  match words !! 0%nat with
  | None => Raise IndexError
  | Some w0 =>
      let words := <[0%nat := drop_first w0]> words in
      let i := (length words - 1)%nat in
      match words !! i with
      | None => Raise IndexError
      | Some wl =>
          let words := <[i := drop_last wl]> words in
          Ok (VStr (join " " words))
      end
  end.

Definition is_delim (c : ascii) : bool :=
  Ascii.eqb c "," || Ascii.eqb c "]".
Definition dot (c : ascii) : bool := negb (Ascii.eqb c newline).
Definition bracket_or_space (c : ascii) : bool :=
  Ascii.eqb c "[" || isspace c.

(** The pattern ["'](.+?)["'][,\]] *)
Definition re_quoted : regex :=
  Cat (Cls is_quote) (Cat (Grp (LazyPlus dot)) (Cat (Cls is_quote) (Cls is_delim))).

(** The pattern [\[\s]*(.+?)[,\]] *)
Definition re_unquoted : regex :=
  Cat (Star bracket_or_space) (Cat (Grp (LazyPlus dot)) (Cls is_delim)).

(** [listparse]; falling off its end returns [None]. *)
Definition listparse (liststring : string) : result value :=
  let elements := findall re_quoted (chars liststring) in
  if negb (Nat.eqb (length elements) 0) then
    Ok (VList (map (fun e => VStr (of_chars e)) elements))
  else
    let elements := findall re_unquoted (chars liststring) in
    if negb (Nat.eqb (length elements) 0) then
      res ← mapM (fun e => e ← numberparse (of_chars e); mret (boolparse e))
                 elements;
      mret (VList res)
    else Ok VNone.

Definition warning (paramname : string) : string :=
  "WARNING: no value specified for parameter " +:+ paramname +:+ ".".

Definition too_many (filepath line : string) : string :=
  "ERROR while parsing " +:+ filepath +:+ " -- too many values in line '"
    +:+ line +:+ "'.".

(** The body of the loop of [read_config] for one line of the file. *)
Definition read_line (filepath : string) (cfg : gmap string value)
  (line : string) : io (gmap string value) :=
  let line := rstrip line in
  if String.eqb line "" then mret cfg
  else if startswith line "#" then mret cfg
  else
    match split line with
    | [] => raise IndexError                     (* pop from an empty list *)
    | paramname :: words =>
        paramvalue ←
          match words with
          | [] => _ ← print (warning paramname); mret VNone
          | w0 :: _ =>
              if startswith w0 "[" then lift (listparse (join " " words))
              else if startswith w0 dquote || startswith w0 squote
              then lift (stringparse words)
              else if (1 <? length words)%nat then
                _ ← print (too_many filepath line); raise SystemExit
              else
                paramvalue ← lift (numberparse w0);
                mret (boolparse paramvalue)
          end;
        mret (<[paramname := paramvalue]> cfg)
    end.

Fixpoint read_lines (filepath : string) (lines : list string)
  (cfg : gmap string value) : io (gmap string value) :=
  match lines with
  | [] => mret cfg
  | line :: lines' =>
      cfg' ← read_line filepath cfg line;
      read_lines filepath lines' cfg'
  end.

(** [read_config]: [fs] gives the lines of the files that exist. *)
Definition read_config (fs : string -> option (list string))
  (filepath : string) : io (gmap string value) :=
  match fs filepath with
  | None => raise FileNotFoundError
  | Some lines => read_lines filepath lines ∅
  end.

(** The object: its path and its dictionary. *)
Record t := mk { filepath : string; params : gmap string value }.

Definition init (fs : string -> option (list string)) (path : string) : io t :=
  cfg ← read_config fs path;
  mret (mk path cfg).

Definition lookup_param (self : t) (name : string) : result value :=
  match params self !! name with
  | Some v => Ok v
  | None => Raise (KeyError name)
  end.

Definition get (self : t) (paramname : list string) : result value :=
  values ← mapM (lookup_param self) paramname;
  match values with
  | [v] => mret v
  | _ => mret (VTuple values)
  end.

Definition set (self : t) (paramname : string) (v : value) : t :=
  mk (filepath self) (<[paramname := v]> (params self)).

Definition get_config (self : t) : gmap string value := params self.

End ConfigReader.

(** * The vocabulary of the properties *)

Import PyStr PyFloat Regex ConfigReader.
Local Open Scope string_scope.

(** The float [x] has the integer [n] as its value. *)
Definition is_integer (x : spec_float) (n : Z) : Prop :=
  exists q, to_Q x = Some q /\ (q == inject_Z n)%Q.

(** The float [x] is finite and its value is not an integer. *)
Definition is_fractional (x : spec_float) : Prop :=
  exists q, to_Q x = Some q /\ forall n, ~ (q == inject_Z n)%Q.

(** The float 3.5, that is 7881299347898368 * 2^-51. *)
Definition three_and_a_half : spec_float :=
  S754_finite false 7881299347898368 (-51).

(** The words after the two assignments of [stringparse]: the first word
    without its first character, the last word without its last one. *)
Definition strip_ends (tokens : list string) : list string :=
  match tokens with
  | [] => []
  | [w] => [drop_last (drop_first w)]
  | w :: ws =>
      (drop_first w :: removelast ws ++ [drop_last (List.last ws "")])%list
  end.

(** A line with a name and at least two more words, the first of which
    opens neither a list nor a quoted string (and which is no comment). *)
Definition too_many_values (line : string) : Prop :=
  startswith (rstrip line) "#" = false
  /\ exists name w0 w1 rest,
      split (rstrip line) = name :: w0 :: w1 :: rest
      /\ startswith w0 "[" = false
      /\ startswith w0 dquote = false
      /\ startswith w0 squote = false.

(** [quoted_here s body rest]: [s] starts with a quoted substring, that is
    a quotation mark, the non-empty text [body], and a quotation mark
    immediately followed by a comma or a closing bracket, after which
    [rest] remains; the text ends at the first such closing point. *)
Definition quoted_here (s body rest : list ascii) : Prop :=
  exists q q' d,
    s = q :: (body ++ q' :: d :: rest)%list
    /\ is_quote q = true /\ body <> []
    /\ is_quote q' = true /\ is_delim d = true
    /\ forall body' q'' d' rest',
        (body ++ q' :: d :: rest = body' ++ q'' :: d' :: rest')%list ->
        body' <> [] -> is_quote q'' = true -> is_delim d' = true ->
        (length body <= length body')%nat.

(** The quoted substrings of a text from left to right, each search
    resuming after the closing point of the previous one. *)
Inductive quoted_substrings : list ascii -> list (list ascii) -> Prop :=
| qs_end : quoted_substrings [] []
| qs_hit (s body rest : list ascii) (l : list (list ascii)) :
    quoted_here s body rest -> quoted_substrings rest l ->
    quoted_substrings s (body :: l)
| qs_skip (c : ascii) (s : list ascii) (l : list (list ascii)) :
    (forall body rest, ~ quoted_here (c :: s) body rest) ->
    quoted_substrings s l ->
    quoted_substrings (c :: s) l.

(** What is left of [re_quoted] after the text of the group: the
    closing quotation mark and the delimiter.  [s1] is the input at the
    start of the group. *)
Definition close (s1 s' : list ascii) : option (list ascii * list ascii) :=
  match s' with
  | q' :: s'' =>
      if is_quote q' then
        match s'' with
        | d :: rest =>
            if is_delim d
            then Some (firstn (length s1 - length s') s1, rest)
            else None
        | [] => None
        end
      else None
  | [] => None
  end.

(** The list line with the quoted words [mixing] and [bad] around the
    unquoted 42 and [is]. *)
Definition mixing : string :=
  "[" +:+ String dquote "mixing" +:+ String dquote ", 42, is, 'bad']".

(** A file system with the one file [run.cfg]. *)
Definition run_cfg (path : string) : option (list string) :=
  if String.eqb path "run.cfg"
  then Some ["epochs 10"; "name 3 4"; "verbose"]
  else None.

(** A loaded configuration with two names. *)
Definition demo : ConfigReader.t :=
  mk "run.cfg" (<["epochs" := VInt 10]> (<["rate" := VStr "slow"]> ∅)).

(** A word without a whitespace character. *)
Definition no_space (w : string) : Prop :=
  forallb (fun c => negb (isspace c)) (chars w) = true.

(** A word of such a list: not empty, without comma, closing bracket,
    quotation mark or newline, and not starting with an opening bracket or
    a blank. *)
Definition plain (t : list ascii) : bool :=
  match t with
  | c :: _ =>
      negb (bracket_or_space c)
      && forallb (fun c => dot c && negb (is_delim c) && negb (is_quote c)) t
  | [] => false
  end.

(** The words between brackets, separated by a comma and a blank. *)
Fixpoint render_items (toks : list (list ascii)) : list ascii :=
  match toks with
  | [] => []
  | [t] => t ++ ["]"%char]
  | t :: ts => t ++ [","%char; " "%char] ++ render_items ts
  end.

Definition render (toks : list (list ascii)) : list ascii :=
  "["%char :: render_items toks.

(** What is left of [re_unquoted] after the text of the group. *)
Definition close_unquoted (s1 s' : list ascii)
  : option (list ascii * list ascii) :=
  match s' with
  | d :: rest =>
      if is_delim d then Some (firstn (length s1 - length s') s1, rest)
      else None
  | [] => None
  end.

(** A line that the loop of [read_config] passes over: blank after
    [rstrip], or starting with the comment sign. *)
Definition skipped (line : string) : bool :=
  String.eqb (rstrip line) "" || startswith (rstrip line) "#".

(** The parameter name of a line that is not passed over: its first
    word. *)
Definition line_name (line : string) : option string :=
  if skipped line then None
  else match split (rstrip line) with
       | name :: _ => Some name
       | [] => None
       end.

(** The names of the lines that give a name and nothing else. *)
Definition bare_names (lines : list string) : list string :=
  flat_map (fun l => if skipped l then []
                     else match split (rstrip l) with
                          | [name] => [name]
                          | _ => []
                          end) lines.

(** A file system with the one file [ok.cfg]. *)
Definition ok_fs (path : string) : option (list string) :=
  if String.eqb path "ok.cfg"
  then Some ["# settings"; "epochs 10"; ""; "rate 0.5"; "verbose"]
  else None.

(** * The prompt [loop_input] *)

Module Input.

(** The type asked for: one of [str], [int], [float], [bool], or the
    string [file]. *)
Inductive rtype := RStr | RInt | RFloat | RBool | RFile.

(** What [print] shows for it. *)
Definition rtype_str (rt : rtype) : string :=
  match rt with
  | RStr => "<class 'str'>"
  | RInt => "<class 'int'>"
  | RFloat => "<class 'float'>"
  | RBool => "<class 'bool'>"
  | RFile => "file"
  end.

(** What goes to the terminal: the prompt of [input], recorded by the
    message and the default it is built from, and the lines of [print]. *)
Inductive event :=
| Prompt (msg : string) (default : value)
| Printed (line : string).

(** How a call ends: with a value, with the [EOFError] of [input] when
    no answer is left, or with the [TypeError] of calling a string. *)
Inductive outcome :=
| Returned (v : value)
| EOFError
| TypeError.

(** [int(s)] for a string: blanks around, an optional sign, decimal
    digits with single underscores between them; [None] stands for the
    [ValueError]. *)
Definition int_of_str (s : string) : option Z :=
  let cs := chars s in
  match (if existsb (Ascii.eqb "_") cs then strip_underscores None cs
         else Some cs) with
  | None => None
  | Some cs' =>
      let (neg, body) := read_sign (strip cs') in
      match span_digits body with
      | ((_ :: _) as ds, []) =>
          Some (if neg then - digits_value ds else digits_value ds)
      | _ => None
      end
  end.

(** The result of [rtype(s)]: a value, a [ValueError] or a [TypeError]. *)
Variant conversion := Converted (v : value) | NoValue | NoCall.

Definition convert (rt : rtype) (s : string) : conversion :=
  match rt with
  | RStr => Converted (VStr s)
  | RInt => match int_of_str s with
            | Some n => Converted (VInt n)
            | None => NoValue
            end
  | RFloat => match float_of_str s with
              | Some x => Converted (VFloat x)
              | None => NoValue
              end
  | RBool => Converted (VBool (py_bool (VStr s)))
  | RFile => NoCall
  end.

Definition not_convertable (rt : rtype) : string :=
  "Input needs to be convertable to " +:+ rtype_str rt +:+ " -- try again.".

Definition file_not_found (s : string) : string :=
  "File " +:+ s +:+ " not found -- try again.".

(** A path with a NUL character makes [open] raise [ValueError]. *)
Definition has_nul (s : string) : bool :=
  existsb (Ascii.eqb zero) (chars s).

Definition is_bool (rt : rtype) : bool :=
  match rt with RBool => true | _ => false end.

Definition is_file (rt : rtype) : bool :=
  match rt with RFile => true | _ => false end.

(** [loop_input]: one turn of the loop for each answer typed; [fs] tells
    which files exist. *)
Fixpoint loop_input (fs : string -> option (list string)) (rt : rtype)
  (default : value) (msg : string) (answers : list string)
  (out : list event) : outcome * list event :=
  let out := (out ++ [Prompt msg default])%list in
  match answers with
  | [] => (EOFError, out)
  | s :: answers' =>
      let again := loop_input fs rt default msg answers' in
      let nonempty := (0 <? String.length s)%nat in
      if is_bool rt && nonempty then
        if String.eqb s "True" then (Returned (VBool true), out)
        else if String.eqb s "False" then (Returned (VBool false), out)
        else again (out ++ [Printed (not_convertable rt)])%list
      else if is_file rt && nonempty then
        if has_nul s then again (out ++ [Printed (not_convertable rt)])%list
        else match fs s with
             | None => again (out ++ [Printed (file_not_found s)])%list
             | Some _ => again out
             end
      else if nonempty then
        match convert rt s with
        | Converted v => (Returned v, out)
        | NoValue => again (out ++ [Printed (not_convertable rt)])%list
        | NoCall => (TypeError, out)
        end
      else (Returned default, out)
  end.

End Input.

(** * The stopwatch [Timer] *)

Module Timer.

(** The labels of the stored times: the numbers of the counter and the
    strings a caller gives. *)
Inductive label := LInt (n : Z) | LStr (s : string).

#[global] Instance label_eq_dec : EqDecision label.
Proof. solve_decision. Defined.

#[global] Instance label_countable : Countable label.
Proof.
  refine (inj_countable'
            (fun l => match l with LInt n => inl n | LStr s => inr s end)
            (fun x => match x with inl n => LInt n | inr s => LStr s end) _).
  intros [n|s]; reflexivity.
Defined.

(** The object.  [START_TIME] is a reading of the clock; the other times
    are the integer 0 until they are set. *)
Record t := mk {
  START_TIME : spec_float;
  END_TIME : value;
  t0 : value;
  t_lap : value;
  counter : Z;
  stopped_times : gmap label (value * value)
}.

(** [not label] *)
Definition falsy (l : option label) : bool :=
  match l with
  | None => true
  | Some (LInt n) => (n =? 0)%Z
  | Some (LStr s) => String.eqb s ""
  end.

(** [if not label: label = self.counter] *)
Definition pick (self : t) (l : option label) : label :=
  if falsy l then LInt (counter self)
  else match l with
       | Some l' => l'
       | None => LInt (counter self)
       end.

(** In every method [now] is what [time.time()] returns in it. *)
Definition init (now : spec_float) : t :=
  mk now (VInt 0) (VInt 0) (VInt 0) 0 ∅.

Definition start (self : t) (now : spec_float) : t * spec_float :=
  (mk (START_TIME self) (END_TIME self) (VFloat now) (VFloat now)
      (counter self) (stopped_times self), now).

Definition stop (self : t) (l : option label) (now : spec_float)
  : t * spec_float :=
  (mk (START_TIME self) (END_TIME self) (t0 self) (t_lap self)
      (counter self + 1)
      (<[pick self l := (VFloat now, t0 self)]> (stopped_times self)), now).

Definition go_on (self : t) (l : option label) (now : spec_float)
  : t * spec_float :=
  (mk (START_TIME self) (END_TIME self) (t0 self) (t_lap self)
      (counter self + 1)
      (<[pick self l := (VFloat now, t0 self)]> (stopped_times self)), now).

Definition lap (self : t) (l : option label) (now : spec_float)
  : t * spec_float :=
  (mk (START_TIME self) (END_TIME self) (t0 self) (VFloat now)
      (counter self + 1)
      (<[pick self l := (VFloat now, t_lap self)]> (stopped_times self)), now).

Definition total (self : t) (l : label) (ret_interval : bool)
  (now : spec_float) : t * spec_float :=
  let interval := SFsub prec emax now (START_TIME self) in
  (mk (START_TIME self) (VFloat now) (t0 self) (t_lap self) (counter self)
      (<[l := (VFloat now, VFloat (START_TIME self))]> (stopped_times self)),
   if ret_interval then interval else now).

(** A call of a method, and a run of calls, each with its reading of the
    clock. *)
Inductive call :=
| Start
| Stop (l : option label)
| GoOn (l : option label)
| Lap (l : option label)
| Total (l : label) (ret_interval : bool).

Definition step (self : t) (c : call * spec_float) : t :=
  match c with
  | (Start, now) => fst (start self now)
  | (Stop l, now) => fst (stop self l now)
  | (GoOn l, now) => fst (go_on self l now)
  | (Lap l, now) => fst (lap self l now)
  | (Total l r, now) => fst (total self l r now)
  end.

Definition run (calls : list (call * spec_float)) (self : t) : t :=
  fold_left step calls self.

(** The calls that take a time and count. *)
Definition counts (c : call * spec_float) : bool :=
  match fst c with
  | Stop _ | GoOn _ | Lap _ => true
  | Start | Total _ _ => false
  end.

(** The start of the interval that the [i]-th of a row of laps stores:
    the end of the lap before, or [t_lap] for the first. *)
Definition lap_start (self : t) (readings : list spec_float) (i : nat)
  : value :=
  match i with
  | O => t_lap self
  | S j => match readings !! j with
           | Some p => VFloat p
           | None => VNone
           end
  end.

End Timer.

(** What a value returned for a type has to be when it is not the
    default: made from one of the answers, by the conversion of the
    type. *)
Definition answered (rt : Input.rtype) (answers : list string) (v : value)
  : Prop :=
  match rt with
  | Input.RStr => exists s, In s answers /\ s <> "" /\ v = VStr s
  | Input.RInt =>
      exists s n, In s answers /\ Input.int_of_str s = Some n /\ v = VInt n
  | Input.RFloat =>
      exists s x, In s answers /\ float_of_str s = Some x /\ v = VFloat x
  | Input.RBool =>
      (In "True" answers /\ v = VBool true)
      \/ (In "False" answers /\ v = VBool false)
  | Input.RFile => False
  end.

(** Calls without a label, as [stop()], [go_on()] and [lap()]. *)
Definition unlabelled (c : Timer.call * spec_float) : bool :=
  match fst c with
  | Timer.Stop None | Timer.GoOn None | Timer.Lap None => true
  | _ => false
  end.

Definition laps (readings : list spec_float)
  : list (Timer.call * spec_float) :=
  map (fun r => (Timer.Lap None, r)) readings.

Definition stops (readings : list spec_float)
  : list (Timer.call * spec_float) :=
  map (fun r => (Timer.Stop None, r)) readings.

(** Two readings of the clock: the floats 1.0 and 2.0. *)
Definition one_second : spec_float :=
  S754_finite false 4503599627370496 (-52).

Definition two_seconds : spec_float :=
  S754_finite false 4503599627370496 (-51).

(** * Properties *)

(** ** Floats and integers *)

Section FloatFacts.

Lemma pow2_pos (k : Z) : 0 <= k -> 0 < 2 ^ k.
Proof. intros Hk. apply Z.pow_pos_nonneg; lia. Qed.

Lemma cond_Zopp_mul (s : bool) (a b : Z) :
  cond_Zopp s a * b = cond_Zopp s (a * b).
Proof. destruct s; simpl; lia. Qed.

Lemma cond_Zopp_inj_mul (s : bool) (n a b : Z) :
  0 < b -> n * b = cond_Zopp s a -> 0 <= a ->
  n = cond_Zopp s (a / b).
Proof.
  intros Hb Heq Ha. destruct s; simpl in *.
  - assert (a = (- n) * b) as -> by lia.
    rewrite Z.div_mul by lia. lia.
  - rewrite <- Heq. rewrite Z.div_mul by lia. reflexivity.
Qed.

(** The test [int(floaty) == floaty] succeeds exactly on the floats
    whose value is an integer, and [int] then returns that integer. *)
Lemma integer_float (x : spec_float) (q : Q) (n : Z) :
  to_Q x = Some q -> (q == inject_Z n)%Q ->
  int_of_float x = inr n /\ int_eq_float n x = true.
Proof.
  destruct x as [s|s| |s m e]; simpl; try discriminate.
  - intros [= <-] Hq. unfold Qeq in Hq; simpl in Hq.
    assert (n = 0) as -> by lia. split; reflexivity.
  - destruct (Z.leb_spec 0 e) as [He|He]; intros [= <-] Hq.
    + unfold Qeq in Hq; simpl in Hq.
      assert (n = cond_Zopp s (Z.pos m * 2 ^ e)) as -> by lia.
      split; [reflexivity | apply Z.eqb_refl].
    + unfold Qeq in Hq; simpl in Hq.
      pose proof (pow2_pos (- e) ltac:(lia)) as Hp.
      rewrite Z2Pos.id in Hq by exact Hp.
      rewrite Z.mul_1_r in Hq. symmetry in Hq.
      split.
      * f_equal. symmetry. apply cond_Zopp_inj_mul; [exact Hp | exact Hq | lia].
      * apply Z.eqb_eq. exact Hq.
Qed.

Lemma fractional_float (x : spec_float) (q : Q) :
  to_Q x = Some q -> (forall n, ~ (q == inject_Z n)%Q) ->
  exists n, int_of_float x = inr n /\ int_eq_float n x = false.
Proof.
  destruct x as [s|s| |s m e]; simpl; try discriminate.
  - intros [= <-] Hq. exfalso. apply (Hq 0). reflexivity.
  - destruct (Z.leb_spec 0 e) as [He|He]; intros [= <-] Hq.
    + exfalso. apply (Hq (cond_Zopp s (Z.pos m * 2 ^ e))). reflexivity.
    + eexists; split; [reflexivity|].
      apply Z.eqb_neq. intros Heq.
      apply (Hq (cond_Zopp s (Z.pos m / 2 ^ (- e)))).
      unfold Qeq; simpl.
      pose proof (pow2_pos (- e) ltac:(lia)) as Hp.
      rewrite Z2Pos.id by exact Hp. lia.
Qed.

End FloatFacts.

(** [float_of_str] on some literals, with the binary64 values that
    CPython gives for them: a tie rounded to even, the smallest
    subnormal, the largest finite float, an overflow, the special words,
    underscores and the strings that [float] rejects. *)
Example float_of_str_samples :
  float_of_str "0.1" = Some (S754_finite false 7205759403792794 (-56))
  /\ float_of_str "1e23" = Some (S754_finite false 5960464477539062 24)
  /\ float_of_str "9007199254740993" = Some (S754_finite false 4503599627370496 1)
  /\ float_of_str "4.9e-324" = Some (S754_finite false 1 (-1074))
  /\ float_of_str "2.4703282292062327e-324" = Some (S754_zero false)
  /\ float_of_str "1.7976931348623158e308"
     = Some (S754_finite false 9007199254740991 971)
  /\ float_of_str "1.7976931348623159e308" = Some (S754_infinity false)
  /\ float_of_str "-0" = Some (S754_zero true)
  /\ float_of_str " -iNf " = Some (S754_infinity true)
  /\ float_of_str "nan" = Some S754_nan
  /\ float_of_str "1_0_0.0_1e0_1" = Some (S754_finite false 8796972631510221 (-43))
  /\ float_of_str "1_" = None /\ float_of_str "1__0" = None
  /\ float_of_str "1e" = None /\ float_of_str "." = None
  /\ float_of_str "" = None /\ float_of_str "0x10" = None
  /\ float_of_str "True" = None.
Proof. repeat split; vm_compute; reflexivity. Qed.

(** ** [boolparse] and [numberparse] *)

Section Scalars.

Lemma boolparse_number (v : value) :
  (forall s, v <> VStr s) -> boolparse v = v.
Proof.
  intros Hv. destruct v; try reflexivity. exfalso. eapply Hv; reflexivity.
Qed.

Lemma boolparse_other (v : value) :
  v <> VStr "True" -> v <> VStr "False" -> boolparse v = v.
Proof.
  intros HT HF. unfold boolparse.
  destruct v as [| | | |s| |]; try reflexivity. simpl.
  destruct (String.eqb_spec s "True") as [->|_]; [congruence|].
  destruct (String.eqb_spec s "False") as [->|_]; [congruence|].
  reflexivity.
Qed.

(** C1: on the string [False] the boolean conversion returns the boolean
    true, not false: [bool] of a non-empty string is true.  On [True]
    it returns true, and every other value (the strings [true] and [yes],
    a number) comes back unchanged. *)
Theorem boolparse_False_gives_True :
  boolparse (VStr "False") = VBool true
  /\ boolparse (VStr "False") <> VBool false
  /\ boolparse (VStr "True") = VBool true
  /\ (forall v, v <> VStr "True" -> v <> VStr "False" -> boolparse v = v)
  /\ boolparse (VStr "true") = VStr "true"
  /\ boolparse (VStr "yes") = VStr "yes"
  /\ boolparse (VInt 1) = VInt 1.
Proof.
  split; [reflexivity|]. split; [discriminate|]. split; [reflexivity|].
  split; [exact boolparse_other|]. repeat split.
Qed.

Lemma numberparse_unparsed (token : string) :
  float_of_str token = None -> numberparse token = Ok (VStr token).
Proof. unfold numberparse. intros ->. reflexivity. Qed.

Lemma numberparse_integer (token : string) (x : spec_float) (n : Z) :
  float_of_str token = Some x -> is_integer x n ->
  numberparse token = Ok (VInt n).
Proof.
  unfold numberparse. intros -> (q & Hq & Hn).
  destruct (integer_float x q n Hq Hn) as [-> ->]. reflexivity.
Qed.

Lemma numberparse_fractional (token : string) (x : spec_float) :
  float_of_str token = Some x -> is_fractional x ->
  numberparse token = Ok (VFloat x).
Proof.
  unfold numberparse. intros -> (q & Hq & Hn).
  destruct (fractional_float x q Hq Hn) as (n & -> & ->). reflexivity.
Qed.

(** C3: [numberparse] tries to read the token as a float.  When that
    fails the token comes back unchanged; when the float has an integer
    value the result is that integer; when it has a fractional value the
    result is the float.  So [3] and [3.0] give the integer 3 and [3.5]
    the float 3.5. *)
Theorem numberparse_spec :
  (forall token,
      (float_of_str token = None -> numberparse token = Ok (VStr token))
      /\ (forall x n, float_of_str token = Some x -> is_integer x n ->
                      numberparse token = Ok (VInt n))
      /\ (forall x, float_of_str token = Some x -> is_fractional x ->
                    numberparse token = Ok (VFloat x)))
  /\ numberparse "3" = Ok (VInt 3)
  /\ (numberparse "3.5" = Ok (VFloat three_and_a_half)
      /\ exists q, to_Q three_and_a_half = Some q /\ (q == 7 # 2)%Q)
  /\ numberparse "3.0" = Ok (VInt 3).
Proof.
  split; [|repeat split; try (vm_compute; reflexivity);
           eexists; split; vm_compute; reflexivity].
  intros token. split; [apply numberparse_unparsed|].
  split; [apply numberparse_integer | apply numberparse_fractional].
Qed.

(** The three cases of C3 at the tokens [abc], [1e2] and [0.25]. *)
Lemma numberparse_spec_witness :
  numberparse "abc" = Ok (VStr "abc")
  /\ numberparse "1e2" = Ok (VInt 100)
  /\ numberparse "0.25" = Ok (VFloat (S754_finite false 4503599627370496 (-54))).
Proof.
  destruct (proj1 numberparse_spec "abc") as (H1 & _).
  destruct (proj1 numberparse_spec "1e2") as (_ & H2 & _).
  destruct (proj1 numberparse_spec "0.25") as (_ & _ & H3).
  split; [apply H1; vm_compute; reflexivity|].
  split.
  - apply (H2 (S754_finite false 7036874417766400 (-46))).
    + vm_compute; reflexivity.
    + eexists. split; vm_compute; reflexivity.
  - apply H3.
    + vm_compute; reflexivity.
    + eexists. split; [vm_compute; reflexivity|].
      intros n Hn. unfold Qeq, inject_Z, Qnum, Qden in Hn. lia.
Defined.

(** C10: [numberparse] is not total.  The tokens [inf] and [Infinity]
    are read as a float, [int] raises [OverflowError] on it, and the
    handler catches [ValueError] only; an exception leaves
    [numberparse] exactly when the token is read as an infinity. *)
Theorem numberparse_raises :
  numberparse "inf" = Raise OverflowError
  /\ numberparse "Infinity" = Raise OverflowError
  /\ forall token e,
      numberparse token = Raise e
      <-> e = OverflowError
          /\ exists s, float_of_str token = Some (S754_infinity s).
Proof.
  split; [vm_compute; reflexivity|].
  split; [vm_compute; reflexivity|].
  intros token e. unfold numberparse.
  destruct (float_of_str token) as [x|].
  - destruct x as [s|s| |s m ex]; simpl.
    + split; [discriminate | intros (_ & ? & [=])].
    + split; [intros [= <-]; eauto | intros (-> & _); reflexivity].
    + split; [discriminate | intros (_ & ? & [=])].
    + split; [|intros (_ & ? & [=])].
      destruct (0 <=? ex)%Z; match goal with |- context [if ?b then _ else _] => destruct b end; discriminate.
  - split; [discriminate | intros (_ & ? & [=])].
Qed.

End Scalars.

(** ** Strings and lists of words *)

Ltac not_nil :=
  let H := fresh in
  intros H;
  first [ discriminate H
        | apply app_eq_nil in H; apply proj2 in H; discriminate H ].

Section StringFacts.

Lemma split_nonempty (s : string) : Forall (fun w => w <> "") (split s).
Proof.
  induction s as [|c s IH]; simpl; [constructor|].
  destruct (isspace c); [exact IH|].
  destruct s as [|c' s']; [repeat constructor; discriminate|].
  destruct (isspace c'); [constructor; [discriminate | exact IH]|].
  destruct (split (String c' s')) as [|w ws].
  - repeat constructor; discriminate.
  - inversion IH; subst. constructor; [discriminate | assumption].
Qed.

Lemma split_empty : split "" = [].
Proof. reflexivity. Qed.

Lemma drop_last_append (a b : string) :
  b <> "" -> drop_last (a +:+ b) = a +:+ drop_last b.
Proof.
  intros Hb. induction a as [|c a IH]; [reflexivity|].
  change (drop_last (String c a +:+ b))
    with (match a +:+ b with
          | "" => ""
          | String _ _ => String c (drop_last (a +:+ b))
          end).
  rewrite IH. destruct (a +:+ b) eqn:E; [|reflexivity].
  destruct a as [|c' a]; [change (b = "") in E; congruence|].
  change (String c' (a +:+ b) = "") in E. discriminate.
Qed.

Lemma join_cons (sep w : string) (ws : list string) :
  ws <> [] -> join sep (w :: ws) = w +:+ sep +:+ join sep ws.
Proof. intros Hws. destruct ws; [now destruct Hws | reflexivity]. Qed.

Lemma lookup_last (l : list string) (w : string) :
  (w :: l) !! length l = Some (List.last (w :: l) "").
Proof.
  revert w. induction l as [|x l IH]; intros w; [reflexivity|].
  cbn [length lookup list_lookup]. rewrite IH. reflexivity.
Qed.

Lemma insert_last (l : list string) (w x : string) :
  <[length l := x]> (w :: l) = (removelast (w :: l) ++ [x])%list.
Proof.
  revert w. induction l as [|y l IH]; intros w; [reflexivity|].
  cbn [length]. change (<[S (length l) := x]> (w :: y :: l))
    with (w :: <[length l := x]> (y :: l)).
  rewrite IH. reflexivity.
Qed.

Lemma chars_append (a b : string) :
  chars (a +:+ b) = (chars a ++ chars b)%list.
Proof.
  induction a as [|c a IH]; [reflexivity|].
  change (chars (String c a +:+ b)) with (c :: chars (a +:+ b)).
  rewrite IH. reflexivity.
Qed.

Lemma split_no_space (s : string) : Forall no_space (split s).
Proof.
  induction s as [|c s IH]; simpl; [constructor|].
  destruct (isspace c) eqn:Hc; [exact IH|].
  assert (no_space (String c "")) as H1.
  { unfold no_space. simpl. rewrite Hc. reflexivity. }
  destruct s as [|c' s']; [repeat constructor; exact H1|].
  destruct (isspace c'); [constructor; [exact H1 | exact IH]|].
  destruct (split (String c' s')) as [|w ws].
  - repeat constructor; exact H1.
  - inversion IH as [|? ? Hw Hws]; subst. constructor; [|exact Hws].
    unfold no_space in *. simpl. rewrite Hc. exact Hw.
Qed.

Lemma no_space_dot (w : string) :
  no_space w -> forallb dot (chars w) = true.
Proof.
  unfold no_space. induction (chars w) as [|c l IH]; [reflexivity|].
  simpl. intros H. apply andb_true_iff in H as [Hc Hl].
  rewrite (IH Hl), andb_true_r. unfold dot.
  destruct (Ascii.eqb_spec c newline) as [->|_]; [discriminate Hc | reflexivity].
Qed.

(** The text that [read_config] hands to [listparse], the words of one
    line joined by blanks, has no newline in it. *)
Lemma joined_words_one_line (words : list string) :
  Forall no_space words -> forallb dot (chars (join " " words)) = true.
Proof.
  induction 1 as [|w ws Hw Hws IH]; [reflexivity|].
  destruct ws as [|x ws]; [apply no_space_dot, Hw|].
  rewrite (join_cons " " w (x :: ws)) by not_nil.
  rewrite !chars_append, !forallb_app, IH, (no_space_dot w Hw). reflexivity.
Qed.

End StringFacts.

Section StringParse.

Lemma stringparse_strip_ends (w : string) (ws : list string) :
  stringparse (w :: ws) = Ok (VStr (join " " (strip_ends (w :: ws)))).
Proof.
  unfold stringparse. cbn [lookup list_lookup].
  change (<[0%nat := drop_first w]> (w :: ws)) with (drop_first w :: ws).
  cbn [length]. replace (S (length ws) - 1)%nat with (length ws) by lia.
  rewrite lookup_last, insert_last.
  destruct ws as [|x ws]; [reflexivity|].
  cbn [strip_ends]. reflexivity.
Qed.

Lemma join_drop_last (ws : list string) :
  ws <> [] -> List.last ws "" <> "" ->
  join " " (removelast ws ++ [drop_last (List.last ws "")])%list
  = drop_last (join " " ws).
Proof.
  induction ws as [|w ws IH]; [congruence|]. intros _ Hl.
  destruct ws as [|x ws]; [reflexivity|].
  change (removelast (w :: x :: ws)) with (w :: removelast (x :: ws)).
  change (List.last (w :: x :: ws) "") with (List.last (x :: ws) "") in *.
  rewrite <- app_comm_cons.
  rewrite join_cons by not_nil.
  rewrite IH by (congruence || assumption).
  rewrite (join_cons " " w (x :: ws)) by not_nil.
  rewrite !drop_last_append; [reflexivity | | discriminate].
  destruct ws as [|y ws]; [exact Hl|].
  cbn [join]. destruct x; discriminate.
Qed.

Lemma strip_ends_join (w : string) (ws : list string) :
  w <> "" -> Forall (fun x => x <> "") ws ->
  join " " (strip_ends (w :: ws))
  = drop_last (drop_first (join " " (w :: ws))).
Proof.
  intros Hw Hws. destruct ws as [|x ws]; [reflexivity|].
  cbn [strip_ends].
  rewrite join_cons by not_nil.
  rewrite join_drop_last; [|discriminate|].
  - rewrite (join_cons " " w (x :: ws)) by not_nil.
    destruct w as [|c w]; [congruence|].
    change (String c w +:+ " " +:+ join " " (x :: ws))
      with (String c (w +:+ " " +:+ join " " (x :: ws))).
    cbn [drop_first].
    rewrite !drop_last_append; [reflexivity | | discriminate].
    destruct ws; [inversion Hws; assumption|].
    cbn [join]. destruct x; [inversion Hws; congruence | discriminate].
  - clear Hw. revert x Hws. induction ws as [|y ws IH]; intros x Hws.
    + inversion Hws; assumption.
    + change (List.last (x :: y :: ws) "") with (List.last (y :: ws) "").
      apply IH. inversion Hws; assumption.
Qed.

End StringParse.

(** ** The loop of [read_config] *)

Section ReadConfig.
Variable path : string.

Lemma read_line_words (cfg : gmap string value) (line : string)
  (words : list string) :
  startswith (rstrip line) "#" = false ->
  split (rstrip line) = words -> words <> [] ->
  read_line path cfg line =
    match words with
    | [] => raise IndexError
    | paramname :: words =>
        paramvalue ←
          match words with
          | [] => _ ← print (warning paramname); mret VNone
          | w0 :: _ =>
              if startswith w0 "[" then lift (listparse (join " " words))
              else if startswith w0 dquote || startswith w0 squote
              then lift (stringparse words)
              else if (1 <? length words)%nat then
                _ ← print (too_many path (rstrip line)); raise SystemExit
              else
                paramvalue ← lift (numberparse w0);
                mret (boolparse paramvalue)
          end;
        mret (<[paramname := paramvalue]> cfg)
    end.
Proof.
  intros Hc Hs Hw. unfold read_line. rewrite Hc, Hs.
  destruct (String.eqb_spec (rstrip line) "") as [E|_]; [|reflexivity].
  rewrite E in Hs. simpl in Hs. congruence.
Qed.

Lemma read_line_too_many (cfg : gmap string value) (line : string)
  (out : list string) :
  too_many_values line ->
  read_line path cfg line out
  = (Raise SystemExit, out ++ [too_many path (rstrip line)])%list.
Proof.
  intros (Hc & name & w0 & w1 & rest & Hs & Hb & Hd & Hq).
  rewrite (read_line_words cfg line _ Hc Hs) by discriminate.
  rewrite Hb, Hd, Hq. reflexivity.
Qed.

Lemma read_lines_cons (l : string) (ls : list string)
  (cfg : gmap string value) (out : list string) :
  read_lines path (l :: ls) cfg out =
    match read_line path cfg l out with
    | (Ok cfg', out') => read_lines path ls cfg' out'
    | (Raise e, out') => (Raise e, out')
    end.
Proof. reflexivity. Qed.

Lemma read_lines_app (pre post : list string) (cfg : gmap string value)
  (out : list string) :
  read_lines path (pre ++ post) cfg out =
    match read_lines path pre cfg out with
    | (Ok cfg', out') => read_lines path post cfg' out'
    | (Raise e, out') => (Raise e, out')
    end.
Proof.
  revert cfg out. induction pre as [|l pre IH]; intros cfg out; [reflexivity|].
  rewrite <- app_comm_cons, !read_lines_cons.
  destruct (read_line path cfg l out) as [[cfg'|e] out']; [apply IH | reflexivity].
Qed.

Lemma read_lines_fail (lines : list string) (line : string)
  (cfg : gmap string value) (out : list string) :
  In line lines -> too_many_values line ->
  exists e out', read_lines path lines cfg out = (Raise e, out').
Proof.
  intros Hin Hbad. revert cfg out.
  induction lines as [|l lines IH]; intros cfg out; [destruct Hin|].
  rewrite read_lines_cons.
  destruct Hin as [->|Hin].
  - rewrite read_line_too_many by exact Hbad. eauto.
  - destruct (read_line path cfg l out) as [[cfg'|e] out']; [apply IH; exact Hin | eauto].
Qed.

End ReadConfig.

Section Load.
Variable fs : string -> option (list string).

(** C5: a file with a line that has too many bare values does not load.
    [read_config], and so the constructor, ends in an exception for every
    such file, and no configuration is produced; when the lines before
    the offending one were read, the exception is the exit of
    [sys.exit], right after the message that names the file and the
    line. *)
Theorem load_aborts_on_too_many_values (path : string)
  (lines : list string) (line : string) (out : list string) :
  fs path = Some lines -> In line lines -> too_many_values line ->
  (exists e out', read_config fs path out = (Raise e, out')
                  /\ init fs path out = (Raise e, out'))
  /\ (forall pre post cfg out1,
        lines = (pre ++ line :: post)%list ->
        read_lines path pre ∅ out = (Ok cfg, out1) ->
        init fs path out
        = (Raise SystemExit, out1 ++ [too_many path (rstrip line)])%list).
Proof.
  intros Hfs Hin Hbad. split.
  - destruct (read_lines_fail path lines line ∅ out Hin Hbad) as (e & out' & H).
    exists e, out'. unfold init, read_config, mbind, io_bind.
    rewrite Hfs, H. split; reflexivity.
  - intros pre post cfg out1 -> Hpre.
    unfold init, read_config, mbind, io_bind. rewrite Hfs.
    rewrite read_lines_app, Hpre, read_lines_cons.
    rewrite read_line_too_many by exact Hbad. reflexivity.
Qed.

(** C8: a line that is only a name does not stop the load: a warning is
    printed, the name is bound to [None], and the loop goes on with the
    lines that follow. *)
Theorem name_without_value (path : string) (cfg : gmap string value)
  (line name : string) (rest : list string) (out : list string) :
  startswith (rstrip line) "#" = false ->
  split (rstrip line) = [name] ->
  read_line path cfg line out
  = (Ok (<[name := VNone]> cfg), out ++ [warning name])%list
  /\ read_lines path (line :: rest) cfg out
     = read_lines path rest (<[name := VNone]> cfg) (out ++ [warning name])%list.
Proof.
  intros Hc Hs.
  assert (read_line path cfg line out
          = (Ok (<[name := VNone]> cfg), out ++ [warning name])%list) as H.
  { rewrite (read_line_words path cfg line _ Hc Hs) by discriminate.
    reflexivity. }
  split; [exact H|].
  rewrite read_lines_cons, H. reflexivity.
Qed.

(** C6: a line whose first value word starts with a quotation mark
    binds its name to the words joined by single spaces, the first word
    having lost its first character and the last word its last one,
    whatever these two characters are; this is the joined text without
    its first and last character. *)
Theorem quoted_line_value (path : string) (cfg : gmap string value)
  (line name w0 : string) (ws : list string) (out : list string) :
  startswith (rstrip line) "#" = false ->
  split (rstrip line) = name :: w0 :: ws ->
  startswith w0 dquote || startswith w0 squote = true ->
  read_line path cfg line out
  = (Ok (<[name := VStr (join " " (strip_ends (w0 :: ws)))]> cfg), out)
  /\ join " " (strip_ends (w0 :: ws))
     = drop_last (drop_first (join " " (w0 :: ws))).
Proof.
  intros Hc Hs Hq. split.
  - rewrite (read_line_words path cfg line _ Hc Hs) by discriminate.
    assert (startswith w0 "[" = false) as ->.
    { destruct w0 as [|c w0]; [reflexivity|]. simpl in *.
      destruct (Ascii.eqb_spec c "[") as [->|_]; [discriminate Hq | reflexivity]. }
    rewrite Hq. unfold mbind, io_bind, lift.
    rewrite stringparse_strip_ends. reflexivity.
  - pose proof (split_nonempty (rstrip line)) as Hne. rewrite Hs in Hne.
    inversion Hne as [|? ? _ Hne']; subst.
    inversion Hne' as [|? ? Hw0 Hws]; subst.
    apply strip_ends_join; assumption.
Qed.

End Load.

Section LoadWitnesses.

(** C5 on the file [run.cfg]: its second line is [name 3 4]. *)
Lemma load_aborts_witness :
  (exists e out', read_config run_cfg "run.cfg" [] = (Raise e, out')
                  /\ init run_cfg "run.cfg" [] = (Raise e, out'))
  /\ init run_cfg "run.cfg" []
     = (Raise SystemExit,
        ["ERROR while parsing run.cfg -- too many values in line 'name 3 4'."]).
Proof.
  assert (too_many_values "name 3 4") as Hbad.
  { split; [reflexivity|].
    exists "name", "3", "4", []. repeat split; reflexivity. }
  destruct (load_aborts_on_too_many_values run_cfg "run.cfg"
              ["epochs 10"; "name 3 4"; "verbose"] "name 3 4" []
              eq_refl (or_intror (or_introl eq_refl)) Hbad) as [H1 H2].
  split; [exact H1|].
  apply (H2 ["epochs 10"] ["verbose"] (<["epochs" := VInt 10]> ∅) []);
    vm_compute; reflexivity.
Defined.

(** C8 on the line [verbose], followed by blanks. *)
Lemma name_without_value_witness :
  read_line "run.cfg" ∅ "verbose  " []
  = (Ok (<["verbose" := VNone]> ∅),
     ["WARNING: no value specified for parameter verbose."])
  /\ read_lines "run.cfg" ["verbose  "; "epochs 10"] ∅ []
     = read_lines "run.cfg" ["epochs 10"] (<["verbose" := VNone]> ∅)
         ["WARNING: no value specified for parameter verbose."].
Proof.
  apply (name_without_value "run.cfg" ∅ "verbose  " "verbose"
           ["epochs 10"] []); reflexivity.
Defined.

(** C6 on the line [name 'multiple words here']. *)
Lemma quoted_line_value_witness :
  read_line "run.cfg" ∅ "name 'multiple words here'" []
  = (Ok (<["name" := VStr "multiple words here"]> ∅), [])
  /\ "multiple words here"
     = drop_last (drop_first "'multiple words here'").
Proof.
  apply (quoted_line_value "run.cfg" ∅ "name 'multiple words here'" "name"
           "'multiple" ["words"; "here'"] []); reflexivity.
Defined.

End LoadWitnesses.

(** ** The accessors [get] and [set] *)

Section Accessors.
Variable self : ConfigReader.t.

Lemma lookup_param_Some (n : string) (v : value) :
  params self !! n = Some v -> lookup_param self n = Ok v.
Proof. unfold lookup_param. intros ->. reflexivity. Qed.

Lemma lookup_param_None (n : string) :
  params self !! n = None -> lookup_param self n = Raise (KeyError n).
Proof. unfold lookup_param. intros ->. reflexivity. Qed.

Lemma mapM_lookup_ok (names : list string) (vs : list value) :
  Forall2 (fun n v => params self !! n = Some v) names vs ->
  mapM (lookup_param self) names = Ok vs.
Proof.
  induction 1 as [|n v names vs Hn _ IH]; [reflexivity|].
  cbn [mapM]. rewrite (lookup_param_Some n v Hn), IH. reflexivity.
Qed.

Lemma mapM_lookup_raise (names : list string) (e : exn) :
  mapM (lookup_param self) names = Raise e ->
  exists n, e = KeyError n /\ In n names /\ params self !! n = None.
Proof.
  induction names as [|n names IH]; [discriminate|].
  cbn [mapM].
  destruct (params self !! n) as [v|] eqn:Hn.
  - rewrite (lookup_param_Some n v Hn).
    destruct (mapM (lookup_param self) names) as [vs|e'] eqn:Hm; [discriminate|].
    intros [= <-]. destruct (IH eq_refl) as (k & -> & Hin & Hk).
    exists k. repeat split; [right; exact Hin | exact Hk].
  - rewrite (lookup_param_None n Hn).
    intros [= <-]. exists n. repeat split; [left; reflexivity | exact Hn].
Qed.

Lemma mapM_lookup_absent (names : list string) (n : string) :
  In n names -> params self !! n = None ->
  exists e, mapM (lookup_param self) names = Raise e.
Proof.
  intros Hin Hn. induction names as [|m names IH]; [destruct Hin|].
  cbn [mapM].
  destruct (params self !! m) as [v|] eqn:Hm.
  - rewrite (lookup_param_Some m v Hm).
    destruct Hin as [->|Hin]; [congruence|].
    destruct (IH Hin) as (e & ->). exists e. reflexivity.
  - rewrite (lookup_param_None m Hm). eexists. reflexivity.
Qed.

Lemma get_values (names : list string) (vs : list value) :
  mapM (lookup_param self) names = Ok vs ->
  get self names = Ok (match vs with [v] => v | _ => VTuple vs end).
Proof.
  intros H. unfold get. rewrite H.
  destruct vs as [|v [|w vs]]; reflexivity.
Qed.

Lemma get_one (name : string) (v : value) :
  params self !! name = Some v -> get self [name] = Ok v.
Proof.
  intros Hv. rewrite (get_values [name] [v]); [reflexivity|].
  apply mapM_lookup_ok. repeat constructor. exact Hv.
Qed.

(** C7: [get] with one name returns the stored value itself; with
    another number of names it returns the tuple of the stored values in
    the order of the request (a pair for two names); and it raises, a
    [KeyError] for one of the names, exactly when one of the requested
    names is not in the configuration. *)
Theorem get_spec :
  (forall name v, params self !! name = Some v -> get self [name] = Ok v)
  /\ (forall names vs,
        length names <> 1%nat ->
        Forall2 (fun n v => params self !! n = Some v) names vs ->
        get self names = Ok (VTuple vs))
  /\ (forall n1 n2 v1 v2,
        params self !! n1 = Some v1 -> params self !! n2 = Some v2 ->
        get self [n1; n2] = Ok (VTuple [v1; v2]))
  /\ (forall names,
        (exists e, get self names = Raise e)
        <-> exists n, In n names /\ params self !! n = None)
  /\ (forall names e,
        get self names = Raise e ->
        exists n, e = KeyError n /\ In n names /\ params self !! n = None).
Proof.
  assert (forall names e, get self names = Raise e ->
            mapM (lookup_param self) names = Raise e) as Hraise.
  { intros names e. unfold get.
    destruct (mapM (lookup_param self) names) as [vs|e']; [|intros [= <-]; reflexivity].
    destruct vs as [|v [|w vs]]; discriminate. }
  split; [|split; [|split; [|split]]].
  - apply get_one.
  - intros names vs Hlen Hall.
    rewrite (get_values names vs (mapM_lookup_ok _ _ Hall)).
    apply Forall2_length in Hall.
    destruct vs as [|v [|w vs]]; try reflexivity.
    simpl in Hall. congruence.
  - intros n1 n2 v1 v2 H1 H2.
    rewrite (get_values [n1; n2] [v1; v2]); [reflexivity|].
    apply mapM_lookup_ok. repeat constructor; assumption.
  - intros names. split.
    + intros (e & He). apply Hraise in He.
      destruct (mapM_lookup_raise _ _ He) as (n & _ & Hin & Hn). eauto.
    + intros (n & Hin & Hn).
      destruct (mapM_lookup_absent names n Hin Hn) as (e & He).
      exists e. unfold get. rewrite He. reflexivity.
  - intros names e He. apply mapM_lookup_raise, Hraise, He.
Qed.

End Accessors.

Section AccessorFacts.

(** C7 on a configuration with the names [epochs] and [rate]. *)
Lemma get_spec_witness :
  get demo ["rate"] = Ok (VStr "slow")
  /\ get demo ["rate"; "epochs"] = Ok (VTuple [VStr "slow"; VInt 10])
  /\ get demo [] = Ok (VTuple [])
  /\ get demo ["rate"; "depth"] = Raise (KeyError "depth").
Proof.
  destruct (get_spec demo) as (H1 & H2 & H3 & H4 & H5).
  split; [apply H1; reflexivity|].
  split; [apply H3; reflexivity|].
  split; [apply H2; [discriminate | constructor]|].
  destruct (proj2 (H4 ["rate"; "depth"])) as (e & He).
  { exists "depth". split; [right; left; reflexivity | reflexivity]. }
  rewrite He. destruct (H5 _ _ He) as (n & -> & Hin & Hn).
  destruct Hin as [<-|[<-|[]]]; [discriminate Hn | reflexivity].
Defined.

(** C9: after [set] has bound a name to a value, [get] of that name
    returns the value.  Both work on the dictionary of the object: [set]
    leaves the path alone and neither is given the files. *)
Theorem get_after_set (self : ConfigReader.t) (name : string) (v : value) :
  get (set self name v) [name] = Ok v
  /\ filepath (set self name v) = filepath self
  /\ forall other, other <> name ->
       params (set self name v) !! other = params self !! other.
Proof.
  split; [|split].
  - apply get_one. unfold set. simpl. apply lookup_insert_eq.
  - reflexivity.
  - intros other Hne. unfold set. simpl. apply lookup_insert_ne. congruence.
Qed.

End AccessorFacts.

(** ** The matcher and [findall] *)

Section MatcherFacts.
Context {R : Type}.

(** A lazy plus hands the continuation the shortest non-empty run of
    characters of the class after which the continuation succeeds. *)
Lemma lazy_plus_Some (p : ascii -> bool) (k : list ascii -> option R)
  (s : list ascii) (r : R) :
  lazy_plus p k s = Some r
  <-> exists pre post,
      s = (pre ++ post)%list /\ pre <> [] /\ forallb p pre = true
      /\ k post = Some r
      /\ forall pre' post',
          s = (pre' ++ post')%list -> pre' <> [] ->
          (length pre' < length pre)%nat -> k post' = None.
Proof.
  revert r. induction s as [|c s IH]; intros r; simpl.
  - split; [discriminate|].
    intros (pre & post & Hs & Hne & _). destruct pre; [congruence | discriminate].
  - split.
    + destruct (p c) eqn:Hc; [|discriminate].
      destruct (k s) as [r'|] eqn:Hk.
      * intros [= <-]. exists [c], s. simpl. rewrite Hc.
        repeat split; try assumption; try discriminate.
        intros pre' post' _ Hne Hlen. destruct pre'; [congruence | simpl in Hlen; lia].
      * intros H. apply IH in H.
        destruct H as (pre & post & -> & Hne & Hall & Hpost & Hmin).
        exists (c :: pre), post. simpl. rewrite Hc, Hall.
        repeat split; try assumption; try discriminate.
        intros pre' post' Hs Hne' Hlen.
        destruct pre' as [|c' pre']; [congruence|].
        simpl in Hs. injection Hs as <- Hs.
        destruct pre' as [|c'' pre'].
        -- simpl in Hs. subst post'. exact Hk.
        -- apply (Hmin (c'' :: pre') post' Hs); [discriminate | simpl in *; lia].
    + intros (pre & post & Hs & Hne & Hall & Hpost & Hmin).
      destruct pre as [|c' pre]; [congruence|].
      simpl in Hs. injection Hs as <- Hs. simpl in Hall.
      apply andb_true_iff in Hall as [Hc Hall]. rewrite Hc.
      destruct pre as [|c'' pre].
      * simpl in Hs. subst s. rewrite Hpost. reflexivity.
      * rewrite (Hmin [c] s); [|reflexivity | discriminate | simpl; lia].
        apply IH. exists (c'' :: pre), post.
        repeat split; try assumption; try discriminate.
        intros pre' post' Hs' Hne' Hlen.
        apply (Hmin (c :: pre') post'); [simpl; congruence | discriminate | simpl in *; lia].
Qed.

End MatcherFacts.

Section FindAll.
Variable r : regex.

Lemma findall_from_skip (pre s : list ascii) :
  findall_from r (pre ++ s) (length pre) = findall_from r s 0.
Proof.
  induction pre as [|c pre IH]; [reflexivity|]. simpl. exact IH.
Qed.

Lemma findall_hit (c : ascii) (pre g rest : list ascii) :
  match_at r (c :: pre ++ rest) = Some (g, rest) ->
  findall r (c :: pre ++ rest) = g :: findall r rest.
Proof.
  intros H. unfold findall. cbn [findall_from]. rewrite H.
  rewrite length_app. replace (length pre + length rest - length rest)%nat
    with (length pre) by lia.
  rewrite findall_from_skip. reflexivity.
Qed.

Lemma findall_miss (c : ascii) (s : list ascii) :
  match_at r (c :: s) = None -> findall r (c :: s) = findall r s.
Proof. intros H. unfold findall. cbn [findall_from]. rewrite H. reflexivity. Qed.

End FindAll.

(** ** Quoted substrings, as the documentation describes them *)

Section Quoted.

Lemma match_at_quoted (s : list ascii) :
  match_at re_quoted s =
    match s with
    | q :: s1 => if is_quote q then lazy_plus dot (close s1) s1 else None
    | [] => None
    end.
Proof. destruct s as [|q s1]; reflexivity. Qed.

Lemma close_Some (pre post g rest : list ascii) :
  close (pre ++ post) post = Some (g, rest)
  <-> exists q' d, post = q' :: d :: rest /\ is_quote q' = true
                   /\ is_delim d = true /\ g = pre.
Proof.
  assert (firstn (length (pre ++ post) - length post) (pre ++ post) = pre) as Hf.
  { rewrite length_app.
    replace (length pre + length post - length post)%nat with (length pre) by lia.
    rewrite firstn_app, Nat.sub_diag, firstn_all. simpl. apply app_nil_r. }
  unfold close. rewrite Hf. clear Hf. split.
  - destruct post as [|q' [|d rest']]; try discriminate.
    + destruct (is_quote q'); discriminate.
    + destruct (is_quote q') eqn:Hq; [|discriminate].
      destruct (is_delim d) eqn:Hd; [|discriminate].
      intros [= <- <-]. exists q', d. repeat split; assumption.
  - intros (q' & d & -> & Hq & Hd & ->). rewrite Hq, Hd. reflexivity.
Qed.

Lemma dot_all (s : list ascii) (pre post : list ascii) :
  forallb dot s = true -> s = (pre ++ post)%list ->
  forallb dot pre = true /\ forallb dot post = true.
Proof. intros H ->. rewrite forallb_app in H. apply andb_true_iff, H. Qed.

(** On one line, the pattern matches at the start of a text exactly
    when the text starts with a quoted substring, and its group is the
    quoted text. *)
Lemma match_at_quoted_here (s body rest : list ascii) :
  forallb dot s = true ->
  match_at re_quoted s = Some (body, rest) <-> quoted_here s body rest.
Proof.
  intros Hdot. rewrite match_at_quoted. split.
  - destruct s as [|q s1]; [discriminate|].
    destruct (is_quote q) eqn:Hq; [|discriminate].
    intros H. apply lazy_plus_Some in H.
    destruct H as (pre & post & -> & Hne & _ & Hclose & Hmin).
    apply close_Some in Hclose as (q' & d & -> & Hq' & Hd & ->).
    exists q, q', d. repeat split; try assumption.
    intros body' q'' d' rest' Heq Hne' Hq'' Hd'.
    destruct (Nat.le_gt_cases (length pre) (length body')) as [Hle|Hlt]; [exact Hle|].
    exfalso. specialize (Hmin body' (q'' :: d' :: rest') Heq Hne' Hlt).
    rewrite Heq in Hmin.
    assert (close (body' ++ q'' :: d' :: rest') (q'' :: d' :: rest')
            = Some (body', rest')) as Hs.
    { apply close_Some. exists q'', d'. repeat split; assumption. }
    congruence.
  - intros (q & q' & d & -> & Hq & Hne & Hq' & Hd & Hmin).
    rewrite Hq. apply lazy_plus_Some.
    exists body, (q' :: d :: rest). repeat split.
    + exact Hne.
    + simpl in Hdot. apply andb_true_iff in Hdot as [_ Hdot].
      apply (dot_all _ body (q' :: d :: rest) Hdot eq_refl).
    + apply close_Some. exists q', d. repeat split; assumption.
    + intros pre' post' Heq Hne' Hlt. rewrite Heq.
      destruct (close (pre' ++ post') post') as [[g rest']|] eqn:Hc; [|reflexivity].
      exfalso. apply close_Some in Hc as (q'' & d' & -> & Hq'' & Hd' & ->).
      specialize (Hmin pre' q'' d' rest' Heq Hne' Hq'' Hd'). lia.
Qed.

(** [findall] with [re_quoted] lists the quoted substrings. *)
Lemma findall_quoted_complete (s : list ascii) (l : list (list ascii)) :
  quoted_substrings s l -> forallb dot s = true ->
  findall re_quoted s = l.
Proof.
  induction 1 as [|s body rest l Hq _ IH|c s l Hno _ IH]; intros Hdot.
  - reflexivity.
  - pose proof Hq as (q & q' & d & -> & _).
    apply match_at_quoted_here in Hq; [|exact Hdot].
    change (q :: body ++ q' :: d :: rest)%list
      with (q :: body ++ [q'; d] ++ rest)%list in *.
    rewrite app_assoc in *.
    rewrite (findall_hit re_quoted q (body ++ [q'; d]) body rest Hq).
    f_equal. apply IH.
    simpl in Hdot. apply andb_true_iff in Hdot as [_ Hdot].
    apply (dot_all _ _ _ Hdot eq_refl).
  - rewrite findall_miss.
    + apply IH. simpl in Hdot. apply andb_true_iff in Hdot as [_ Hdot]. exact Hdot.
    + destruct (match_at re_quoted (c :: s)) as [[g rest]|] eqn:Hm; [|reflexivity].
      exfalso. apply (Hno g rest).
      apply match_at_quoted_here; assumption.
Qed.

Lemma findall_quoted_sound_aux (n : nat) (s : list ascii) :
  (length s <= n)%nat -> forallb dot s = true ->
  quoted_substrings s (findall re_quoted s).
Proof.
  revert s. induction n as [|n IH]; intros s Hlen Hdot.
  - destruct s; [constructor | simpl in Hlen; lia].
  - destruct s as [|c s]; [constructor|].
    destruct (match_at re_quoted (c :: s)) as [[g rest]|] eqn:Hm.
    + pose proof Hm as Hq. apply match_at_quoted_here in Hq; [|exact Hdot].
      pose proof Hq as (q & q' & d & Heq & _).
      injection Heq as -> ->.
      change (q :: g ++ q' :: d :: rest)%list
        with (q :: g ++ [q'; d] ++ rest)%list in *.
      rewrite app_assoc in *.
      rewrite (findall_hit re_quoted q (g ++ [q'; d]) g rest Hm).
      apply (qs_hit _ g rest); [exact Hq|]. apply IH.
      * simpl in Hlen. rewrite length_app in Hlen. lia.
      * simpl in Hdot. apply andb_true_iff in Hdot as [_ Hdot].
        apply (dot_all _ _ _ Hdot eq_refl).
    + rewrite (findall_miss _ _ _ Hm). apply qs_skip.
      * intros body rest Hq. apply match_at_quoted_here in Hq; [congruence | exact Hdot].
      * apply IH; [simpl in Hlen; lia|].
        simpl in Hdot. apply andb_true_iff in Hdot as [_ Hdot]. exact Hdot.
Qed.

Lemma findall_quoted_sound (s : list ascii) :
  forallb dot s = true -> quoted_substrings s (findall re_quoted s).
Proof. apply (findall_quoted_sound_aux (length s)). lia. Qed.

(** C2: when the text of a list value (one line, so without a newline)
    has quoted substrings, [listparse] returns exactly these, in order
    and as strings; whatever stands between them is left out.  So the
    list of the words [mixing], 42, [is] and [bad], of which the first and
    the last are quoted, gives the two strings [mixing] and [bad]. *)
Theorem listparse_quoted (liststring : string) (l : list (list ascii)) :
  forallb dot (chars liststring) = true ->
  quoted_substrings (chars liststring) l ->
  l <> [] ->
  listparse liststring = Ok (VList (map (fun e => VStr (of_chars e)) l)).
Proof.
  intros Hdot Hq Hne. unfold listparse.
  rewrite (findall_quoted_complete _ _ Hq Hdot).
  destruct l; [congruence | reflexivity].
Qed.

Lemma listparse_quoted_witness :
  listparse mixing = Ok (VList [VStr "mixing"; VStr "bad"]).
Proof.
  apply (listparse_quoted mixing [chars "mixing"; chars "bad"]).
  - reflexivity.
  - change [chars "mixing"; chars "bad"]
      with (findall re_quoted (chars mixing)).
    apply findall_quoted_sound. reflexivity.
  - discriminate.
Defined.

(** The same for a line of the file: the text handed to [listparse] is
    one line by construction. *)
Lemma quoted_list_line (path : string) (cfg : gmap string value)
  (line name w0 : string) (ws : list string) (l : list (list ascii))
  (out : list string) :
  startswith (rstrip line) "#" = false ->
  split (rstrip line) = name :: w0 :: ws ->
  startswith w0 "[" = true ->
  quoted_substrings (chars (join " " (w0 :: ws))) l -> l <> [] ->
  read_line path cfg line out
  = (Ok (<[name := VList (map (fun e => VStr (of_chars e)) l)]> cfg), out).
Proof.
  intros Hc Hs Hb Hq Hne.
  rewrite (read_line_words path cfg line _ Hc Hs) by discriminate.
  rewrite Hb. unfold listparse.
  rewrite (findall_quoted_complete _ _ Hq).
  - destruct l; [congruence | reflexivity].
  - apply joined_words_one_line.
    pose proof (split_no_space (rstrip line)) as H. rewrite Hs in H.
    inversion H; assumption.
Qed.

End Quoted.

(** ** Lists without quoted elements *)

Section Unquoted.

Lemma numberparse_str (token s : string) :
  numberparse token = Ok (VStr s) -> s = token.
Proof.
  unfold numberparse. destruct (float_of_str token) as [x|]; [|congruence].
  destruct (int_of_float x) as [[|]|n]; try congruence.
  destruct (int_eq_float n x); discriminate.
Qed.

(** One element of an unquoted list: [boolparse] after [numberparse]
    turns the words [True] and [False] into the boolean true and leaves
    every other result of [numberparse] as it is. *)
Lemma element_conversion (token : string) (v : value) :
  numberparse token = Ok v ->
  boolparse v =
    if String.eqb token "True" || String.eqb token "False"
    then VBool true else v.
Proof.
  intros H. destruct v as [| | | |s| |]; try (
    destruct (String.eqb_spec token "True") as [->|_];
    [vm_compute in H; discriminate|];
    destruct (String.eqb_spec token "False") as [->|_];
    [vm_compute in H; discriminate | reflexivity]).
  apply numberparse_str in H as ->. unfold boolparse, eq_str.
  destruct (String.eqb_spec token "True") as [->|_]; [reflexivity|].
  destruct (String.eqb_spec token "False") as [->|_]; reflexivity.
Qed.

(** The two examples of the documentation that hold. *)
Lemma listparse_plain_lists :
  listparse "[this, is, a, valid, list]"
  = Ok (VList [VStr "this"; VStr "is"; VStr "a"; VStr "valid"; VStr "list"])
  /\ listparse "[54, 74, 90, 2014]"
     = Ok (VList [VInt 54; VInt 74; VInt 90; VInt 2014]).
Proof. split; vm_compute; reflexivity. Qed.

(** C4: in a list without quoted elements the word [False] becomes the
    boolean true (the documentation of [listparse] gives false for this
    very list), and a word read as an infinite float makes the whole
    call raise [OverflowError] instead of returning the list. *)
Theorem listparse_unquoted_divergence :
  listparse "[True, 1337, False, 666]"
  = Ok (VList [VBool true; VInt 1337; VBool true; VInt 666])
  /\ listparse "[54, inf]" = Raise OverflowError.
Proof. split; vm_compute; reflexivity. Qed.

End Unquoted.

Section UnquotedLists.

(** When no quoted substring is found, [listparse] returns the results
    of [numberparse] then [boolparse] on the words that [re_unquoted]
    finds, provided [numberparse] returns on each of them. *)
Lemma listparse_unquoted (liststring : string) (vs : list value) :
  findall re_quoted (chars liststring) = [] ->
  findall re_unquoted (chars liststring) <> [] ->
  Forall2 (fun tok v => exists v0, numberparse (of_chars tok) = Ok v0
                                   /\ v = boolparse v0)
          (findall re_unquoted (chars liststring)) vs ->
  listparse liststring = Ok (VList vs).
Proof.
  intros Hq Hne Hall. unfold listparse. rewrite Hq. simpl.
  destruct (findall re_unquoted (chars liststring)) as [|t ts] eqn:E;
    [congruence|]. clear Hne E.
  change (negb (length (t :: ts) =? 0)%nat) with true. cbv iota.
  assert (mapM (fun e => e ← numberparse (of_chars e); mret (boolparse e))
               (t :: ts) = Ok vs) as ->; [|reflexivity].
  induction Hall as [|tok v toks vs' (v0 & Hv0 & ->) _ IH]; [reflexivity|].
  cbn [mapM]. rewrite Hv0. cbn [mbind result_bind]. rewrite IH. reflexivity.
Qed.

End UnquotedLists.

(** ** The words of a list written without quotation marks *)

Section PlainLists.

(** A greedy star takes the whole run of characters of its class when the
    continuation succeeds after it. *)
Lemma star_greedy_all {R : Type} (p : ascii -> bool)
  (k : list ascii -> option R) (skip s : list ascii) (r : R) :
  forallb p skip = true ->
  match s with c :: _ => p c = false | [] => True end ->
  k s = Some r ->
  star_greedy p k (skip ++ s) = Some r.
Proof.
  intros Hskip Hs Hk. induction skip as [|c skip IH]; simpl.
  - destruct s as [|c s]; [exact Hk|]. simpl. rewrite Hs. exact Hk.
  - simpl in Hskip. apply andb_true_iff in Hskip as [-> Hskip].
    rewrite (IH Hskip). reflexivity.
Qed.

Lemma match_at_unquoted (s : list ascii) :
  match_at re_unquoted s
  = star_greedy bracket_or_space
      (fun s1 => lazy_plus dot (close_unquoted s1) s1) s.
Proof. reflexivity. Qed.

Lemma plain_inv (t : list ascii) :
  plain t = true ->
  exists c t', t = c :: t' /\ bracket_or_space c = false
    /\ forallb dot t = true
    /\ forallb (fun c => negb (is_delim c)) t = true
    /\ forallb (fun c => negb (is_quote c)) t = true.
Proof.
  destruct t as [|c t']; [discriminate|]. unfold plain.
  intros H. apply andb_true_iff in H as [Hc Hall].
  exists c, t'. split; [reflexivity|]. split; [destruct (bracket_or_space c); [discriminate | reflexivity]|].
  revert Hall. generalize (c :: t'). intros l. induction l as [|x l IH]; [repeat split|].
  simpl. intros H. apply andb_true_iff in H as [Hx Hl].
  apply andb_true_iff in Hx as [Hx Hq]. apply andb_true_iff in Hx as [Hd Hx].
  destruct (IH Hl) as (H1 & H2 & H3). rewrite Hd, Hx, Hq, H1, H2, H3. repeat split.
Qed.

(** The pattern at a word: the brackets and blanks before it are passed
    over, and the group is the word up to its delimiter. *)
Lemma match_at_word (skip t rest : list ascii) (d : ascii) :
  forallb bracket_or_space skip = true -> plain t = true ->
  is_delim d = true ->
  match_at re_unquoted (skip ++ t ++ d :: rest) = Some (t, rest).
Proof.
  intros Hskip Ht Hd. rewrite match_at_unquoted.
  destruct (plain_inv t Ht) as (c & t' & -> & Hc & Hdot & Hnd & _).
  apply star_greedy_all; [exact Hskip | exact Hc |].
  apply lazy_plus_Some. exists (c :: t'), (d :: rest).
  assert (forall pre post, (c :: t') ++ d :: rest = pre ++ post ->
            firstn (length ((c :: t') ++ d :: rest) - length post)
                   ((c :: t') ++ d :: rest) = pre)%list as Hf.
  { intros pre post ->. rewrite length_app.
    replace (length pre + length post - length post)%nat with (length pre) by lia.
    rewrite firstn_app, Nat.sub_diag, firstn_all. simpl. apply app_nil_r. }
  repeat split; try assumption; try discriminate.
  - unfold close_unquoted. rewrite Hd. f_equal. f_equal. apply (Hf _ _ eq_refl).
  - intros pre' post' Heq Hne Hlen. unfold close_unquoted.
    destruct post' as [|x post']; [reflexivity|].
    destruct (is_delim x) eqn:Hx; [|reflexivity]. exfalso.
    assert (In x (c :: t')) as Hin.
    { assert (length pre' < length (c :: t'))%nat as Hlt by exact Hlen.
      clear - Heq Hlt. revert pre' Heq Hlt.
      generalize (c :: t'). intros l. induction l as [|y l IH]; intros pre' Heq Hlt.
      - simpl in Hlt. lia.
      - destruct pre' as [|z pre'].
        + simpl in Heq. injection Heq as -> _. left; reflexivity.
        + simpl in Heq. injection Heq as _ Heq. right.
          apply (IH pre' Heq). simpl in Hlt. lia. }
    rewrite forallb_forall in Hnd. specialize (Hnd x Hin).
    rewrite Hx in Hnd. discriminate.
Qed.

Lemma findall_hit_app (r : regex) (pre g rest : list ascii) :
  pre <> [] -> match_at r (pre ++ rest) = Some (g, rest) ->
  findall r (pre ++ rest) = g :: findall r rest.
Proof.
  destruct pre as [|c pre]; [congruence|]. intros _ H.
  apply (findall_hit r c pre g rest H).
Qed.

Lemma findall_items (ts : list (list ascii)) (t skip : list ascii) :
  forallb plain (t :: ts) = true -> forallb bracket_or_space skip = true ->
  findall re_unquoted (skip ++ render_items (t :: ts)) = t :: ts.
Proof.
  revert t skip. induction ts as [|t2 ts IH]; intros t skip Hall Hskip;
    simpl in Hall; apply andb_true_iff in Hall as [Ht Hts];
    destruct (plain_inv t Ht) as (c & t' & Et & _).
  - cbn [render_items].
    replace (skip ++ t ++ ["]"%char])%list
      with ((skip ++ t ++ ["]"%char]) ++ [])%list by apply app_nil_r.
    rewrite (findall_hit_app re_unquoted (skip ++ t ++ ["]"%char]) t []).
    + reflexivity.
    + subst t. destruct skip; discriminate.
    + rewrite app_nil_r. apply match_at_word; [exact Hskip | exact Ht | reflexivity].
  - change (render_items (t :: t2 :: ts))
      with (t ++ [","%char; " "%char] ++ render_items (t2 :: ts))%list.
    replace (skip ++ t ++ [","%char; " "%char] ++ render_items (t2 :: ts))%list
      with ((skip ++ t ++ [","%char]) ++ [" "%char] ++ render_items (t2 :: ts))%list
      by (rewrite <- !app_assoc; reflexivity).
    rewrite (findall_hit_app re_unquoted (skip ++ t ++ [","%char]) t).
    + f_equal. apply IH; [exact Hts | reflexivity].
    + subst t. destruct skip; discriminate.
    + rewrite <- !app_assoc.
      apply (match_at_word skip t _ ","%char); [exact Hskip | exact Ht | reflexivity].
Qed.

(** No quotation mark, no quoted substring. *)
Lemma findall_quoted_none (s : list ascii) :
  forallb (fun c => negb (is_quote c)) s = true -> findall re_quoted s = [].
Proof.
  induction s as [|c s IH]; [reflexivity|]. simpl.
  intros H. apply andb_true_iff in H as [Hc Hs].
  rewrite findall_miss; [exact (IH Hs)|].
  rewrite match_at_quoted. destruct (is_quote c); [discriminate Hc | reflexivity].
Qed.

Lemma render_no_quote (t : list ascii) (ts : list (list ascii)) :
  forallb plain (t :: ts) = true ->
  forallb (fun c => negb (is_quote c)) (render_items (t :: ts)) = true.
Proof.
  revert t. induction ts as [|t2 ts IH]; intros t Hall;
    simpl in Hall; apply andb_true_iff in Hall as [Ht Hts];
    destruct (plain_inv t Ht) as (c & t' & _ & _ & _ & _ & Hq).
  - cbn [render_items]. rewrite forallb_app, Hq. reflexivity.
  - change (render_items (t :: t2 :: ts))
      with (t ++ [","%char; " "%char] ++ render_items (t2 :: ts))%list.
    rewrite !forallb_app, Hq, (IH t2 Hts). reflexivity.
Qed.

(** A list of plain words, written between brackets with a comma and a
    blank between the words: [listparse] takes the words apart in order
    and returns the results of [numberparse] then [boolparse] on them,
    provided [numberparse] returns on each word. *)
Lemma listparse_plain (t : list ascii) (ts : list (list ascii))
  (vs : list value) :
  forallb plain (t :: ts) = true ->
  Forall2 (fun tok v => exists v0, numberparse (of_chars tok) = Ok v0
                                   /\ v = boolparse v0) (t :: ts) vs ->
  listparse (of_chars (render (t :: ts))) = Ok (VList vs).
Proof.
  intros Hall Hvs.
  assert (chars (of_chars (render (t :: ts))) = render (t :: ts)) as Hc
    by apply list_ascii_of_string_of_list_ascii.
  assert (findall re_unquoted (render (t :: ts)) = t :: ts) as Hu.
  { apply (findall_items ts t ["["%char] Hall). reflexivity. }
  apply listparse_unquoted; rewrite Hc.
  - apply findall_quoted_none. unfold render.
    change ("["%char :: render_items (t :: ts))
      with (["["%char] ++ render_items (t :: ts))%list.
    rewrite forallb_app, (render_no_quote t ts Hall). reflexivity.
  - rewrite Hu. discriminate.
  - rewrite Hu. exact Hvs.
Qed.

End PlainLists.

(** * Further properties of the configuration reader *)

Section LineFacts.
Variable path : string.

Lemma rstrip_idempotent (s : string) : rstrip (rstrip s) = rstrip s.
Proof.
  induction s as [|c s IH]; [reflexivity|]. simpl.
  destruct (rstrip s) as [|c' r] eqn:E.
  - destruct (isspace c) eqn:Hc; [reflexivity|]. simpl. rewrite Hc. reflexivity.
  - change (rstrip (String c (String c' r)))
      with (match rstrip (String c' r) with
            | "" => if isspace c then "" else String c ""
            | String a b => String c (String a b)
            end).
    rewrite IH. reflexivity.
Qed.

Lemma rstrip_blank (s : string) :
  forallb isspace (chars s) = true -> rstrip s = "".
Proof.
  induction s as [|c s IH]; [reflexivity|]. simpl.
  intros H. apply andb_true_iff in H as [Hc Hs].
  rewrite (IH Hs), Hc. reflexivity.
Qed.

Lemma split_nil (s : string) :
  split s = [] -> forallb isspace (chars s) = true.
Proof.
  induction s as [|c s IH]; [reflexivity|]. simpl.
  destruct (isspace c); [exact IH|].
  destruct s as [|c' s']; [discriminate|].
  destruct (isspace c'); [discriminate|].
  destruct (split (String c' s')); discriminate.
Qed.

(** The words of a line that is not blank are not empty: [pop] never
    fails. *)
Lemma split_rstrip_not_nil (line : string) :
  rstrip line <> "" -> split (rstrip line) <> [].
Proof.
  intros Hne Hs. apply Hne. rewrite <- rstrip_idempotent.
  apply rstrip_blank, split_nil, Hs.
Qed.

Lemma skipped_false (line : string) :
  skipped line = false ->
  startswith (rstrip line) "#" = false
  /\ exists name words, split (rstrip line) = name :: words.
Proof.
  unfold skipped. intros H. apply orb_false_iff in H as [He Hc].
  split; [exact Hc|].
  destruct (String.eqb_spec (rstrip line) "") as [|Hne]; [discriminate|].
  destruct (split (rstrip line)) as [|name words] eqn:Hs.
  - exfalso. apply (split_rstrip_not_nil line Hne Hs).
  - eauto.
Qed.

Lemma read_line_skipped (cfg : gmap string value) (line : string)
  (out : list string) :
  skipped line = true -> read_line path cfg line out = (Ok cfg, out).
Proof.
  unfold skipped, read_line. intros H.
  destruct (String.eqb (rstrip line) ""); [reflexivity|].
  simpl in H. rewrite H. reflexivity.
Qed.

Lemma numberparse_exn (token : string) (e : exn) :
  numberparse token = Raise e -> e = OverflowError.
Proof.
  unfold numberparse. destruct (float_of_str token) as [x|]; [|discriminate].
  destruct (int_of_float x) as [[|]|n]; try congruence.
  destruct (int_eq_float n x); discriminate.
Qed.

Lemma mapM_elements (toks : list (list ascii)) :
  match mapM (fun e => e ← numberparse (of_chars e); mret (boolparse e)) toks with
  | Ok vs => length vs = length toks
  | Raise e => e = OverflowError
  end.
Proof.
  induction toks as [|t ts IH]; [reflexivity|]. cbn [mapM].
  destruct (numberparse (of_chars t)) as [v|e] eqn:Hn.
  - cbn [mbind result_bind mret result_ret].
    destruct (mapM _ ts) as [vs|e]; [simpl; congruence | exact IH].
  - apply (numberparse_exn _ _ Hn).
Qed.

(** What [listparse] can give: [None], a list that is not empty, or the
    [OverflowError] of [numberparse]. *)
Lemma listparse_cases (liststring : string) :
  match listparse liststring with
  | Ok v => v = VNone \/ exists x l, v = VList (x :: l)
  | Raise e => e = OverflowError
  end.
Proof.
  unfold listparse.
  destruct (findall re_quoted (chars liststring)) as [|q qs];
    cbn [length Nat.eqb negb map].
  - destruct (findall re_unquoted (chars liststring)) as [|t ts] eqn:E;
      cbn [length Nat.eqb negb].
    + left; reflexivity.
    + pose proof (mapM_elements (t :: ts)) as H.
      destruct (mapM _ (t :: ts)) as [vs|e]; [|exact H].
      cbn [mbind result_bind mret result_ret].
      destruct vs as [|x l]; [discriminate H|]. right; eauto.
  - right; eauto.
Qed.

(** The outcome of one line that is not passed over: the configuration
    with the first word bound to a value that does not depend on the
    configuration before, and at most a warning printed; or an exit
    after the error message; or an [OverflowError]. *)
Lemma read_line_outcome (line name : string) (words : list string) :
  startswith (rstrip line) "#" = false ->
  split (rstrip line) = name :: words ->
  (exists v w, (w = [] \/ (words = [] /\ w = [warning name]))
     /\ forall cfg out,
         read_line path cfg line out
         = (Ok (<[name := v]> cfg), out ++ w)%list)
  \/ (forall cfg out,
        read_line path cfg line out
        = (Raise SystemExit, out ++ [too_many path (rstrip line)])%list)
  \/ (forall cfg out, read_line path cfg line out = (Raise OverflowError, out)).
Proof.
  intros Hc Hs.
  assert (forall cfg, read_line path cfg line = _) as Hrl
    by (intros cfg; exact (read_line_words path cfg line _ Hc Hs ltac:(discriminate))).
  destruct words as [|w0 ws].
  - left. exists VNone, [warning name]. split; [right; split; reflexivity|].
    intros cfg out. rewrite Hrl. reflexivity.
  - cbv beta iota in Hrl. destruct (startswith w0 "[") eqn:Hb.
    + pose proof (listparse_cases (join " " (w0 :: ws))) as Hl.
      destruct (listparse (join " " (w0 :: ws))) as [v|e] eqn:El.
      * left. exists v, []. split; [left; reflexivity|].
        intros cfg out. rewrite Hrl, app_nil_r. reflexivity.
      * right; right. subst e. intros cfg out. rewrite Hrl. reflexivity.
    + destruct (startswith w0 dquote || startswith w0 squote) eqn:Hq.
      * left. exists (VStr (join " " (strip_ends (w0 :: ws)))), [].
        split; [left; reflexivity|].
        intros cfg out. rewrite Hrl, stringparse_strip_ends, app_nil_r.
        reflexivity.
      * destruct ws as [|w1 ws].
        -- cbn [length Nat.ltb Nat.leb] in Hrl.
           destruct (numberparse w0) as [v|e] eqn:En.
           ++ left. exists (boolparse v), []. split; [left; reflexivity|].
              intros cfg out. rewrite Hrl, app_nil_r. reflexivity.
           ++ right; right. apply numberparse_exn in En as Ee. subst e.
              intros cfg out. rewrite Hrl. reflexivity.
        -- right; left. intros cfg out. rewrite Hrl. reflexivity.
Qed.

End LineFacts.

Section LoadFacts.
Variable path : string.

Lemma line_name_Some (line name : string) :
  line_name line = Some name <->
  skipped line = false /\ exists words, split (rstrip line) = name :: words.
Proof.
  unfold line_name. destruct (skipped line) eqn:Hsk.
  - split; [discriminate | intros [[=] _]].
  - destruct (skipped_false line Hsk) as (_ & n & ws & Hs). rewrite Hs. split.
    + intros [= ->]. split; [reflexivity | eauto].
    + intros (_ & ws' & [= -> _]). reflexivity.
Qed.

(** A line that was read without an exception: either it was passed
    over, or its first word was bound, with at most a warning printed. *)
Lemma read_line_ok_inv (cfg cfg1 : gmap string value) (line : string)
  (out out1 : list string) :
  read_line path cfg line out = (Ok cfg1, out1) ->
  (skipped line = true /\ cfg1 = cfg /\ out1 = out)
  \/ exists name v,
      line_name line = Some name /\ cfg1 = <[name := v]> cfg
      /\ (forall cfg2 out2, exists out2',
             read_line path cfg2 line out2 = (Ok (<[name := v]> cfg2), out2'))
      /\ ((split (rstrip line) = [name] /\ out1 = out ++ [warning name])
          \/ (split (rstrip line) <> [name] /\ out1 = out))%list.
Proof.
  intros H. destruct (skipped line) eqn:Hsk.
  - left. rewrite read_line_skipped in H by exact Hsk.
    injection H as <- <-. repeat split; reflexivity.
  - right. destruct (skipped_false line Hsk) as (Hc & name & words & Hs).
    assert (line_name line = Some name) as Hn
      by (apply line_name_Some; eauto).
    destruct (read_line_outcome path line name words Hc Hs)
      as [(v & w & Hw & Hok)|[Hexit|Hovf]].
    + rewrite Hok in H. injection H as <- <-.
      exists name, v. split; [exact Hn|]. split; [reflexivity|].
      split; [intros cfg2 out2; rewrite Hok; eauto|].
      destruct Hw as [->|[-> ->]].
      * destruct words as [|w0 ws].
        -- exfalso. specialize (Hok ∅ []).
           rewrite (read_line_words path ∅ line _ Hc Hs) in Hok by discriminate.
           discriminate Hok.
        -- right. rewrite Hs, app_nil_r. split; [discriminate | reflexivity].
      * left. split; [exact Hs | reflexivity].
    + rewrite Hexit in H. discriminate H.
    + rewrite Hovf in H. discriminate H.
Qed.

Lemma read_lines_ok_inv (l : string) (ls : list string)
  (cfg cfg' : gmap string value) (out out' : list string) :
  read_lines path (l :: ls) cfg out = (Ok cfg', out') ->
  exists cfg1 out1,
    read_line path cfg l out = (Ok cfg1, out1)
    /\ read_lines path ls cfg1 out1 = (Ok cfg', out').
Proof.
  rewrite read_lines_cons.
  destruct (read_line path cfg l out) as [[cfg1|e] out1]; [eauto | discriminate].
Qed.

(** X1: blank lines and comment lines do not count: a file loads as the
    file without them does, with the same configuration, the same output
    and the same exception. *)
Theorem blank_and_comment_lines_ignored (lines : list string)
  (cfg : gmap string value) (out : list string) :
  read_lines path lines cfg out
  = read_lines path (List.filter (fun l => negb (skipped l)) lines) cfg out.
Proof.
  revert cfg out. induction lines as [|l ls IH]; intros cfg out; [reflexivity|].
  cbn [List.filter]. destruct (skipped l) eqn:Hsk; cbn [negb].
  - rewrite read_lines_cons, read_line_skipped by exact Hsk. apply IH.
  - rewrite !read_lines_cons.
    destruct (read_line path cfg l out) as [[cfg1|e] out1]; [apply IH | reflexivity].
Qed.

(** X2: only a comment sign in the first column makes a comment.  A
    line that begins with a blank and has a word is read as a
    declaration of its first word, whatever that word begins with: the
    word is bound, or the load ends as for any other declaration. *)
Theorem indented_line_is_declaration (c : ascii) (rest name : string)
  (words : list string) :
  isspace c = true ->
  split (rstrip (String c rest)) = name :: words ->
  line_name (String c rest) = Some name
  /\ ((exists v w, forall cfg out,
          read_line path cfg (String c rest) out
          = (Ok (<[name := v]> cfg), out ++ w)%list)
      \/ (forall cfg out,
            read_line path cfg (String c rest) out
            = (Raise SystemExit,
               out ++ [too_many path (rstrip (String c rest))])%list)
      \/ (forall cfg out,
            read_line path cfg (String c rest) out = (Raise OverflowError, out))).
Proof.
  intros Hc Hs.
  assert (startswith (rstrip (String c rest)) "#" = false) as Hno.
  { simpl. destruct (rstrip rest); [rewrite Hc; reflexivity|].
    simpl. destruct (Ascii.eqb_spec c "#") as [->|_]; [discriminate Hc | reflexivity]. }
  assert (skipped (String c rest) = false) as Hsk.
  { unfold skipped. rewrite Hno, orb_false_r.
    destruct (String.eqb_spec (rstrip (String c rest)) "") as [E|_]; [|reflexivity].
    rewrite E in Hs. discriminate Hs. }
  split; [apply line_name_Some; eauto|].
  destruct (read_line_outcome path _ name words Hno Hs)
    as [(v & w & _ & Hok)|[H|H]]; eauto.
Qed.

(** Reading lines never removes a name and never touches the value of a
    name that no line declares. *)
Lemma read_lines_frame (lines : list string)
  (cfg cfg' : gmap string value) (out out' : list string) :
  read_lines path lines cfg out = (Ok cfg', out') ->
  forall k,
    (is_Some (cfg !! k) -> is_Some (cfg' !! k))
    /\ ((forall l, In l lines -> line_name l <> Some k) ->
        cfg' !! k = cfg !! k).
Proof.
  revert cfg out. induction lines as [|l ls IH]; intros cfg out H k.
  - injection H as <- _. split; [tauto | reflexivity].
  - apply read_lines_ok_inv in H as (cfg1 & out1 & Hl & Hls).
    destruct (IH _ _ Hls k) as [Hkeep Hsame].
    apply read_line_ok_inv in Hl as [(_ & -> & _)|(name & v & Hn & -> & _)].
    + split; [exact Hkeep|]. intros Hno. apply Hsame.
      intros l' Hin. apply Hno. right; exact Hin.
    + split.
      * intros Hk. apply Hkeep.
        destruct (decide (name = k)) as [->|Hne];
          [rewrite lookup_insert_eq; eauto | rewrite lookup_insert_ne; assumption].
      * intros Hno. rewrite Hsame by (intros l' Hin; apply Hno; right; exact Hin).
        apply lookup_insert_ne. intros ->. apply (Hno l); [left; reflexivity | exact Hn].
Qed.

Lemma read_lines_binds (lines : list string)
  (cfg cfg' : gmap string value) (out out' : list string) (l name : string) :
  read_lines path lines cfg out = (Ok cfg', out') ->
  In l lines -> line_name l = Some name -> is_Some (cfg' !! name).
Proof.
  revert cfg out. induction lines as [|l0 ls IH]; intros cfg out H Hin Hn;
    [destruct Hin|].
  apply read_lines_ok_inv in H as (cfg1 & out1 & Hl & Hls).
  destruct Hin as [->|Hin]; [|exact (IH _ _ Hls Hin Hn)].
  apply (read_lines_frame _ _ _ _ _ Hls name).
  apply read_line_ok_inv in Hl as [(Hsk & _)|(name' & v & Hn' & -> & _)].
  - unfold line_name in Hn. rewrite Hsk in Hn. discriminate Hn.
  - rewrite Hn in Hn'. injection Hn' as <-. rewrite lookup_insert_eq. eauto.
Qed.

(** X4: of several declarations of a name the last one counts: after a
    load the name has the value that its last declaration gives on its
    own, whatever was declared before. *)
Theorem last_declaration_wins (pre post : list string) (l name : string)
  (cfg cfg' : gmap string value) (out out' : list string) :
  read_lines path (pre ++ l :: post) cfg out = (Ok cfg', out') ->
  line_name l = Some name ->
  (forall l', In l' post -> line_name l' <> Some name) ->
  exists v out1,
    read_line path ∅ l [] = (Ok (<[name := v]> ∅), out1)
    /\ cfg' !! name = Some v.
Proof.
  intros H Hn Hpost. rewrite read_lines_app in H.
  destruct (read_lines path pre cfg out) as [[cfg0|e] out0]; [|discriminate H].
  apply read_lines_ok_inv in H as (cfg1 & out1 & Hl & Hls).
  apply read_line_ok_inv in Hl as [(Hsk & _)|(name' & v & Hn' & -> & Hany & _)].
  - unfold line_name in Hn. rewrite Hsk in Hn. discriminate Hn.
  - rewrite Hn in Hn'. injection Hn' as <-.
    destruct (Hany ∅ []) as (out2 & Hv). exists v, out2. split; [exact Hv|].
    destruct (read_lines_frame _ _ _ _ _ Hls name) as [_ Hsame].
    rewrite (Hsame Hpost). apply lookup_insert_eq.
Qed.

(** X5: a load that succeeds prints the warnings for the names given
    without a value, in the order of the file, and nothing else. *)
Theorem load_prints_only_warnings (lines : list string)
  (cfg cfg' : gmap string value) (out out' : list string) :
  read_lines path lines cfg out = (Ok cfg', out') ->
  out' = (out ++ map warning (bare_names lines))%list.
Proof.
  revert cfg out. induction lines as [|l ls IH]; intros cfg out H.
  - injection H as _ <-. simpl. rewrite app_nil_r. reflexivity.
  - apply read_lines_ok_inv in H as (cfg1 & out1 & Hl & Hls).
    rewrite (IH _ _ Hls). unfold bare_names. cbn [flat_map].
    apply read_line_ok_inv in Hl
      as [(Hsk & _ & ->)|(name & v & Hn & _ & _ & Hw)].
    + rewrite Hsk. reflexivity.
    + apply line_name_Some in Hn as (Hsk & ws & Hs). rewrite Hsk.
      destruct Hw as [(Hs1 & ->)|(Hs1 & ->)].
      * rewrite Hs1, map_app, app_assoc. reflexivity.
      * rewrite Hs. destruct ws as [|w0 ws]; [congruence|reflexivity].
Qed.


End LoadFacts.

Section ObjectFacts.
Variable fs : string -> option (list string).

Lemma init_inv (path : string) (self : ConfigReader.t)
  (out out' : list string) :
  init fs path out = (Ok self, out') ->
  exists lines,
    fs path = Some lines /\ filepath self = path
    /\ read_lines path lines ∅ out = (Ok (params self), out').
Proof.
  unfold init, read_config, mbind, io_bind.
  destruct (fs path) as [lines|]; [|discriminate].
  destruct (read_lines path lines ∅ out) as [[cfg|e] o] eqn:H; [|discriminate].
  unfold mret, io_ret. intros [= <- <-]. exists lines.
  split; [reflexivity|]. split; [reflexivity | exact H].
Qed.

(** X3: a loaded configuration has exactly the names that the file
    declares: [get] returns for the first word of every line that is
    neither blank nor a comment, and raises [KeyError] for a name that no
    such line begins with. *)
Theorem loaded_names_are_the_declared (path : string)
  (lines : list string) (self : ConfigReader.t) (out out' : list string) :
  fs path = Some lines ->
  init fs path out = (Ok self, out') ->
  forall name,
    ((exists l, In l lines /\ line_name l = Some name) ->
     exists v, get self [name] = Ok v)
    /\ ((forall l, In l lines -> line_name l <> Some name) ->
        get self [name] = Raise (KeyError name)).
Proof.
  intros Hfs Hinit name.
  apply init_inv in Hinit as (lines' & Hfs' & _ & Hrl).
  rewrite Hfs in Hfs'. injection Hfs' as <-. split.
  - intros (l & Hin & Hn).
    destruct (read_lines_binds path _ _ _ _ _ l name Hrl Hin Hn) as (v & Hv).
    exists v. apply get_one, Hv.
  - intros Hno.
    destruct (read_lines_frame path _ _ _ _ _ Hrl name) as [_ Hsame].
    specialize (Hsame Hno). rewrite lookup_empty in Hsame.
    unfold get. cbn [mapM]. rewrite (lookup_param_None self name Hsame).
    reflexivity.
Qed.


End ObjectFacts.

Section ParserFacts.

(** X7: [listparse] never returns an empty list.  It returns [None]
    when it finds no element, and the text of an empty pair of brackets
    gives the list of the one string that is an opening bracket. *)
Theorem listparse_never_empty :
  (forall liststring, listparse liststring <> Ok (VList []))
  /\ (forall liststring v,
        listparse liststring = Ok v ->
        v = VNone \/ exists x l, v = VList (x :: l))
  /\ listparse "[]" = Ok (VList [VStr "["])
  /\ listparse "[" = Ok VNone.
Proof.
  assert (forall liststring v, listparse liststring = Ok v ->
            v = VNone \/ exists x l, v = VList (x :: l)) as H.
  { intros s v Hs. pose proof (listparse_cases s) as Hc. rewrite Hs in Hc. exact Hc. }
  split; [|split; [exact H | split; vm_compute; reflexivity]].
  intros s Hs. destruct (H s _ Hs) as [?|(x & l & ?)]; discriminate.
Qed.

(** X9: what [numberparse] returns is the token itself, an integer, or a
    float whose value is not an integer; never a float with an integer
    value, an infinity or a NaN, and never another string. *)
Theorem numberparse_result_kinds (token : string) (v : value) :
  numberparse token = Ok v ->
  v = VStr token
  \/ (exists n, v = VInt n)
  \/ (exists x, v = VFloat x /\ float_of_str token = Some x /\ is_fractional x).
Proof.
  unfold numberparse. destruct (float_of_str token) as [x|]; [|intros [= <-]; tauto].
  destruct x as [s|s| |s m e]; cbn [int_of_float]; try (intros [= <-]; tauto);
    try discriminate.
  - cbn [int_eq_float]. rewrite Z.eqb_refl. intros [= <-]. right; left; eauto.
  - destruct (int_eq_float _ _) eqn:Heq; intros [= <-]; [right; left; eauto|].
    right; right. exists (S754_finite s m e). repeat split.
    unfold is_fractional. eexists. split; [reflexivity|].
    intros n Hn.
    destruct (integer_float (S754_finite s m e) _ n eq_refl Hn) as [Hi He].
    cbn [int_of_float] in Hi. injection Hi as Hi. rewrite Hi in Heq. congruence.
Qed.


End ParserFacts.

Section LoadFactWitnesses.

(** X2 on a comment sign after two blanks. *)
Lemma indented_line_is_declaration_witness :
  line_name "  #note" = Some "#note".
Proof.
  exact (proj1 (indented_line_is_declaration "ok.cfg" " "%char " #note"
                  "#note" [] eq_refl eq_refl)).
Defined.

(** X3 on the file [ok.cfg]. *)
Lemma loaded_names_witness :
  exists self out',
    init ok_fs "ok.cfg" [] = (Ok self, out')
    /\ (exists v, get self ["rate"] = Ok v)
    /\ get self ["depth"] = Raise (KeyError "depth").
Proof.
  eexists. eexists. split; [vm_compute; reflexivity|].
  match goal with
  | |- (exists v, get ?self _ = _) /\ _ =>
      pose proof (loaded_names_are_the_declared ok_fs "ok.cfg"
                    ["# settings"; "epochs 10"; ""; "rate 0.5"; "verbose"]
                    self [] ["WARNING: no value specified for parameter verbose."]
                    eq_refl eq_refl) as H
  end.
  split.
  - apply (H "rate"). exists "rate 0.5". split; [|reflexivity].
    right; right; right; left; reflexivity.
  - apply (H "depth").
    intros l [<-|[<-|[<-|[<-|[<-|[]]]]]]; vm_compute; discriminate.
Defined.

(** X4 on a file that declares [rate] twice. *)
Lemma last_declaration_wins_witness :
  exists v out1,
    read_line "ok.cfg" ∅ "rate 2" [] = (Ok (<["rate" := v]> ∅), out1)
    /\ (<["epochs" := VInt 3]> (<["rate" := VInt 2]> (<["rate" := VInt 1]> ∅))
        : gmap string value) !! "rate" = Some v.
Proof.
  apply (last_declaration_wins "ok.cfg" ["rate 1"] ["epochs 3"] "rate 2" "rate"
           ∅ _ [] []).
  - vm_compute; reflexivity.
  - reflexivity.
  - intros l [<-|[]]. vm_compute; discriminate.
Defined.

(** X5 on a file with two names without a value. *)
Lemma load_prints_only_warnings_witness :
  ["WARNING: no value specified for parameter verbose.";
   "WARNING: no value specified for parameter debug."]
  = ([] ++ map warning (bare_names ["verbose"; "epochs 10"; "debug  "]))%list.
Proof.
  apply (load_prints_only_warnings "ok.cfg" ["verbose"; "epochs 10"; "debug  "]
           ∅ (<["debug" := VNone]> (<["epochs" := VInt 10]> (<["verbose" := VNone]> ∅)))
           []).
  vm_compute; reflexivity.
Defined.


(** X9 on the token [2.5]. *)
Lemma numberparse_result_kinds_witness :
  exists x, float_of_str "2.5" = Some x /\ is_fractional x
            /\ numberparse "2.5" = Ok (VFloat x).
Proof.
  assert (numberparse "2.5"
          = Ok (VFloat (S754_finite false 5629499534213120 (-51)))) as Hn
    by (vm_compute; reflexivity).
  destruct (numberparse_result_kinds _ _ Hn)
    as [H|[(n & H)|(x & H & Hx & Hf)]]; try discriminate H.
  exists x. injection H as <-.
  split; [exact Hx | split; [exact Hf | exact Hn]].
Defined.

End LoadFactWitnesses.

(** * Properties of the prompt and of the stopwatch *)

Section InputFacts.
Import Input.
Variable fs : string -> option (list string).

Lemma length_zero (s : string) :
  (0 <? String.length s)%nat = negb (String.eqb "" s).
Proof. destruct s; reflexivity. Qed.


(** X11: [loop_input] never ends in a [TypeError], and a value it
    returns is the default, given for an empty answer, or is made from
    one of the answers by the conversion asked for: a string that is not
    empty, an integer or a float read from an answer, and for [bool] true
    for the answer [True] and false for the answer [False] only. *)
Theorem loop_input_result (rt : rtype) (default : value) (msg : string)
  (answers : list string) (out : list event) :
  fst (loop_input fs rt default msg answers out) <> TypeError
  /\ forall v,
      fst (loop_input fs rt default msg answers out) = Returned v ->
      (v = default /\ In "" answers) \/ answered rt answers v.
Proof.
  revert out. induction answers as [|s answers IH]; intros out.
  - split; [discriminate | intros v; discriminate].
  - assert (forall o,
              fst (loop_input fs rt default msg answers o) <> TypeError
              /\ forall v,
                  fst (loop_input fs rt default msg answers o) = Returned v ->
                  (v = default /\ In "" (s :: answers))
                  \/ answered rt (s :: answers) v) as IH'.
    { intros o. destruct (IH o) as [H1 H2]. split; [exact H1|].
      intros v Hv. destruct (H2 v Hv) as [[-> Hin]|Ha].
      - left. split; [reflexivity | right; exact Hin].
      - right. destruct rt; cbn [answered] in *.
        + destruct Ha as (s' & Hin & Hne & ->). exists s'. repeat split; [right|]; assumption.
        + destruct Ha as (s' & n & Hin & Hn & ->). exists s', n. repeat split; [right|]; assumption.
        + destruct Ha as (s' & x & Hin & Hx & ->). exists s', x. repeat split; [right|]; assumption.
        + destruct Ha as [[Hin ->]|[Hin ->]]; [left|right]; (split; [right; exact Hin | reflexivity]).
        + exact Ha. }
    cbn [loop_input]. rewrite length_zero.
    destruct (String.eqb_spec "" s) as [<-|Hne]; cbn [negb].
    + rewrite !andb_false_r. split; [discriminate|].
      intros v [= <-]. left. split; [reflexivity | left; reflexivity].
    + rewrite !andb_true_r. destruct rt; cbn [is_bool is_file convert].
      * split; [discriminate|]. intros v [= <-]. right.
        exists s. repeat split; [left; reflexivity | congruence].
      * destruct (int_of_str s) as [n|] eqn:Hn; [|apply IH'].
        split; [discriminate|]. intros v [= <-]. right.
        exists s, n. repeat split; [left; reflexivity | exact Hn].
      * destruct (float_of_str s) as [x|] eqn:Hx; [|apply IH'].
        split; [discriminate|]. intros v [= <-]. right.
        exists s, x. repeat split; [left; reflexivity | exact Hx].
      * destruct (String.eqb_spec s "True") as [->|_].
        { split; [discriminate|]. intros v [= <-]. right. left.
          split; [left; reflexivity | reflexivity]. }
        destruct (String.eqb_spec s "False") as [->|_]; [|apply IH'].
        split; [discriminate|]. intros v [= <-]. right. right.
        split; [left; reflexivity | reflexivity].
      * destruct (has_nul s); [apply IH'|]. destruct (fs s); apply IH'.
Qed.

End InputFacts.

Section TimerFacts.
Import Timer.

Lemma run_cons (c : call * spec_float) (calls : list (call * spec_float))
  (self : t) : run (c :: calls) self = run calls (step self c).
Proof. reflexivity. Qed.

(** X12: the counter counts the calls of [stop], [go_on] and [lap],
    with or without a label; [start] and [total] leave it alone. *)
Theorem counter_counts (calls : list (call * spec_float)) (self : t) :
  counter (run calls self)
  = counter self + Z.of_nat (length (List.filter counts calls)).
Proof.
  revert self. induction calls as [|[c now] calls IH]; intros self.
  - simpl. lia.
  - rewrite run_cons, IH. cbn [List.filter].
    destruct c; cbn [counts fst step start stop go_on lap total counter length];
      lia.
Qed.

(** Calls without a label leave the entries below the counter alone. *)
Lemma run_unlabelled_frame (calls : list (call * spec_float)) (self : t)
  (k : Z) :
  forallb unlabelled calls = true -> k < counter self ->
  stopped_times (run calls self) !! LInt k = stopped_times self !! LInt k.
Proof.
  revert self. induction calls as [|[c now] calls IH]; intros self Hall Hk;
    [reflexivity|].
  cbn [forallb] in Hall. apply andb_true_iff in Hall as [Hc Hall].
  rewrite run_cons.
  destruct c as [|[l|]|[l|]|[l|]|]; try discriminate Hc;
    (rewrite IH; [|exact Hall | cbn; lia]);
    cbn [step stop go_on lap fst stopped_times pick falsy];
    (apply lookup_insert_ne; intros [= E]; lia).
Qed.

Lemma forallb_laps (readings : list spec_float) :
  forallb unlabelled (laps readings) = true.
Proof. induction readings; [reflexivity | exact IHreadings]. Qed.

Lemma forallb_stops (readings : list spec_float) :
  forallb unlabelled (stops readings) = true.
Proof. induction readings; [reflexivity | exact IHreadings]. Qed.

Lemma last_cons_default (a d : value) (l : list value) :
  List.last (a :: l) d = List.last l a.
Proof.
  revert a d. induction l as [|b l IH]; intros a d; [reflexivity|].
  change (List.last (a :: b :: l) d) with (List.last (b :: l) d).
  rewrite !IH. reflexivity.
Qed.

(** X13: laps without a label follow one another: the [i]-th lap of a
    row is stored under the number the counter had, with the reading of
    the clock as its end and the end of the lap before as its start
    ([t_lap] for the first lap), and [t_lap] is then the last reading. *)
Theorem laps_chain (readings : list spec_float) (self : t) :
  (forall i r,
      readings !! i = Some r ->
      stopped_times (run (laps readings) self) !! LInt (counter self + Z.of_nat i)
      = Some (VFloat r, lap_start self readings i))
  /\ t_lap (run (laps readings) self)
     = List.last (map VFloat readings) (t_lap self).
Proof.
  revert self. induction readings as [|r0 rs IH]; intros self.
  - split; [intros i r H; destruct i; discriminate H | reflexivity].
  - destruct (IH (fst (lap self None r0))) as [IH1 IH2].
    change (run (laps (r0 :: rs)) self) with (run (laps rs) (fst (lap self None r0))).
    split.
    + intros [|i] r Hi.
      * injection Hi as <-.
        rewrite run_unlabelled_frame; [| apply forallb_laps | cbn; lia].
        cbn [lap fst stopped_times pick falsy lap_start].
        rewrite Z.add_0_r. apply lookup_insert_eq.
      * cbn [lookup list_lookup] in Hi. specialize (IH1 i r Hi).
        change (counter (fst (lap self None r0))) with (counter self + 1) in IH1.
        replace (counter self + Z.of_nat (S i)) with (counter self + 1 + Z.of_nat i) by lia.
        rewrite IH1. f_equal. f_equal.
        destruct i as [|j]; reflexivity.
    + rewrite IH2. cbn [map]. symmetry. apply last_cons_default.
Qed.

(** X14: stops without a label all measure from the same start: the
    [i]-th of a row is stored under the number the counter had, with the
    reading of the clock and the unchanged [t0]. *)
Theorem stops_are_cumulative (readings : list spec_float) (self : t) :
  (forall i r,
      readings !! i = Some r ->
      stopped_times (run (stops readings) self) !! LInt (counter self + Z.of_nat i)
      = Some (VFloat r, t0 self))
  /\ t0 (run (stops readings) self) = t0 self.
Proof.
  revert self. induction readings as [|r0 rs IH]; intros self.
  - split; [intros i r H; destruct i; discriminate H | reflexivity].
  - destruct (IH (fst (stop self None r0))) as [IH1 IH2].
    change (run (stops (r0 :: rs)) self) with (run (stops rs) (fst (stop self None r0))).
    split; [|exact IH2].
    intros [|i] r Hi.
    + injection Hi as <-.
      rewrite run_unlabelled_frame; [| apply forallb_stops | cbn; lia].
      cbn [stop fst stopped_times pick falsy].
      rewrite Z.add_0_r. apply lookup_insert_eq.
    + cbn [lookup list_lookup] in Hi. specialize (IH1 i r Hi).
      change (counter (fst (stop self None r0))) with (counter self + 1) in IH1.
      replace (counter self + Z.of_nat (S i)) with (counter self + 1 + Z.of_nat i) by lia.
      exact IH1.
Qed.

End TimerFacts.

(** * Integers through [numberparse] *)

Section ExactIntegers.

Lemma digits2_size (p : positive) : digits2_pos p = Pos.size p.
Proof. induction p as [p IH|p IH|]; simpl; congruence. Qed.

Lemma digits2_bound (p : positive) :
  Z.pos p < 2 ^ 53 -> Z.pos (digits2_pos p) <= 53.
Proof.
  intros Hp. rewrite digits2_size.
  pose proof (Pos.size_le p) as Hle.
  destruct (Z.le_gt_cases (Z.pos (Pos.size p)) 53) as [H|H]; [exact H|exfalso].
  assert (2 ^ 54 <= Z.pos (2 ^ Pos.size p)) as Hpow.
  { rewrite Pos2Z.inj_pow. apply Z.pow_le_mono_r; lia. }
  assert (Z.pos (2 ^ Pos.size p) <= Z.pos p~0) as Hle' by exact Hle.
  change (2 ^ 54) with (2 * 2 ^ 53) in Hpow. lia.
Qed.

Lemma iter_xO_digits (p k : positive) :
  digits2_pos (Pos.iter xO p k) = (digits2_pos p + k)%positive.
Proof.
  induction k as [|k IH] using Pos.peano_ind.
  - simpl. lia.
  - rewrite Pos.iter_succ. simpl. rewrite IH. lia.
Qed.

Lemma iter_xO_value (p k : positive) :
  Z.pos (Pos.iter xO p k) = Z.pos p * 2 ^ Z.pos k.
Proof.
  induction k as [|k IH] using Pos.peano_ind.
  - simpl. lia.
  - rewrite Pos.iter_succ, Pos2Z.inj_xO, IH, Pos2Z.inj_succ.
    rewrite Z.pow_succ_r by lia. lia.
Qed.

(** A mantissa of 53 bits with an exponent in range is its own
    rounding. *)
Lemma binary_round_aux_exact (sx : bool) (mz : positive) (ez : Z) :
  Z.pos (digits2_pos mz) = 53 -> -1074 <= ez <= 971 ->
  binary_round_aux prec emax sx (Z.pos mz) ez loc_Exact
  = S754_finite sx mz ez.
Proof.
  intros Hd He.
  assert (shr_fexp prec emax (Z.pos mz) ez loc_Exact
          = (Build_shr_record (Z.pos mz) false false, ez)) as Hshr.
  { unfold shr_fexp, fexp, emin, prec, emax. cbn [Zdigits2]. rewrite Hd.
    replace (Z.max (53 + ez - 53) (3 - 1024 - 53)) with ez by lia.
    rewrite Z.sub_diag. reflexivity. }
  unfold binary_round_aux. rewrite Hshr.
  cbn [shr_m loc_of_shr_record round_nearest_even]. rewrite Hshr.
  cbn [shr_m]. unfold prec, emax.
  destruct (Z.leb_spec ez (1024 - 53)); [reflexivity | lia].
Qed.

(** A positive integer below 2^53 is rounded to itself. *)
Lemma binary_round_integer (p : positive) :
  Z.pos p < 2 ^ 53 ->
  exists m e,
    binary_round prec emax false p 0 = S754_finite false m e
    /\ e <= 0 /\ Z.pos m = Z.pos p * 2 ^ (- e).
Proof.
  intros Hp. pose proof (digits2_bound p Hp) as Hd.
  unfold binary_round.
  assert (fexp prec emax (Z.pos (digits2_pos p) + 0)
          = Z.pos (digits2_pos p) - 53) as ->.
  { unfold fexp, emin, prec, emax. lia. }
  unfold shl_align.
  destruct (Z.pos (digits2_pos p) - 53 - 0) as [|k|k] eqn:Hk; try lia.
  - exists p, 0. split; [|split; [lia | simpl; lia]].
    apply binary_round_aux_exact; lia.
  - exists (Pos.iter xO p k), (Z.pos (digits2_pos p) - 53).
    split; [|split; [lia|]].
    + apply binary_round_aux_exact; [|lia].
      rewrite iter_xO_digits. lia.
    + rewrite iter_xO_value. f_equal. f_equal. lia.
Qed.

Lemma digit_facts (c : ascii) :
  is_digit c = true ->
  fspace c = false /\ lower c = c /\ 0 <= digit_val c <= 9
  /\ Ascii.eqb "_" c = false /\ Ascii.eqb c "-" = false
  /\ Ascii.eqb c "+" = false /\ Ascii.eqb c "i" = false
  /\ Ascii.eqb c "n" = false.
Proof.
  destruct c as [[] [] [] [] [] [] [] []]; try discriminate;
    intros _; repeat split; try reflexivity; vm_compute; discriminate.
Qed.

Lemma span_digits_all (ds : list ascii) :
  forallb is_digit ds = true -> span_digits ds = (ds, []).
Proof.
  induction ds as [|c ds IH]; [reflexivity|]. simpl.
  intros H. apply andb_true_iff in H as [-> Hds]. rewrite (IH Hds). reflexivity.
Qed.

Lemma digits_value_nonneg (ds : list ascii) :
  forallb is_digit ds = true -> 0 <= digits_value ds.
Proof.
  unfold digits_value. intros Hds.
  assert (forall acc, 0 <= acc ->
            0 <= fold_left (fun acc c => 10 * acc + digit_val c) ds acc) as H;
    [|apply H; lia].
  induction ds as [|c ds IH]; intros acc Hacc; [exact Hacc|].
  simpl in *. apply andb_true_iff in Hds as [Hc Hds].
  apply (IH Hds). pose proof (digit_facts c Hc). lia.
Qed.

Lemma lstrip_head (s : list ascii) :
  match s with c :: _ => fspace c = false | [] => True end -> lstrip s = s.
Proof. destruct s as [|c s]; [reflexivity|]. simpl. intros ->. reflexivity. Qed.

Lemma strip_digits (ds : list ascii) :
  forallb is_digit ds = true -> strip ds = ds.
Proof.
  intros Hds. unfold strip.
  assert (forall l, forallb is_digit l = true -> lstrip l = l) as Hl.
  { intros l Hall. apply lstrip_head. destruct l as [|c l]; [exact I|].
    simpl in Hall. apply andb_true_iff in Hall as [Hc _].
    apply (digit_facts c Hc). }
  rewrite (Hl ds Hds), Hl, rev_involutive; [reflexivity|].
  rewrite forallb_forall in *. intros x Hx. apply Hds, in_rev, Hx.
Qed.

(** [float] of a row of digits: the digits' value, rounded. *)
Lemma float_of_digits (c : ascii) (ds : list ascii) :
  forallb is_digit (c :: ds) = true ->
  float_of_str (of_chars (c :: ds))
  = Some (round_decimal false (digits_value (c :: ds)) 0).
Proof.
  intros Hall. unfold float_of_str.
  assert (chars (of_chars (c :: ds)) = c :: ds) as ->
    by apply list_ascii_of_string_of_list_ascii.
  assert (existsb (Ascii.eqb "_") (c :: ds) = false) as ->.
  { clear - Hall. induction (c :: ds) as [|x l IH]; [reflexivity|].
    cbn [existsb forallb] in *. apply andb_true_iff in Hall as [Hx Hl].
    destruct (digit_facts x Hx) as (_ & _ & _ & -> & _). exact (IH Hl). }
  rewrite (strip_digits _ Hall).
  pose proof Hall as Hall'. simpl in Hall'.
  apply andb_true_iff in Hall' as [Hc Hds].
  destruct (digit_facts c Hc) as (_ & Hlow & _ & _ & Hm & Hp & Hi & Hn).
  unfold read_sign. rewrite Hm, Hp.
  assert (special false (c :: ds) = None) as ->.
  { unfold special, of_chars. cbn [map string_of_list_ascii]. rewrite Hlow.
    cbn [String.eqb]. rewrite Hi, Hn. reflexivity. }
  unfold decimal. rewrite (span_digits_all _ Hall).
  rewrite app_nil_r. reflexivity.
Qed.

(** X15: a token of decimal digits whose value is below 2^53 is read
    as exactly that integer.  (Above, the value goes through a float
    and may change: 9007199254740993 is read as 9007199254740992.) *)
Theorem numberparse_exact_integers (ds : list ascii) :
  ds <> [] -> forallb is_digit ds = true -> digits_value ds < 2 ^ 53 ->
  numberparse (of_chars ds) = Ok (VInt (digits_value ds)).
Proof.
  intros Hne Hall Hlt. destruct ds as [|c ds]; [congruence|].
  unfold numberparse. rewrite (float_of_digits c ds Hall).
  pose proof (digits_value_nonneg _ Hall) as Hpos.
  unfold round_decimal.
  destruct (Z.leb_spec (digits_value (c :: ds)) 0) as [Hz|Hz].
  - assert (digits_value (c :: ds) = 0) as -> by lia. reflexivity.
  - cbn [Z.leb Z.compare]. rewrite Z.pow_0_r, Z.mul_1_r. cbn [cond_Zopp].
    destruct (digits_value (c :: ds)) as [|p|p] eqn:Ev; try lia.
    cbn [binary_normalize].
    destruct (binary_round_integer p Hlt) as (m & e & -> & He & Hm).
    cbn [int_of_float cond_Zopp int_eq_float].
    pose proof (pow2_pos (- e) ltac:(lia)) as Hpow.
    destruct (Z.leb_spec 0 e) as [He0|He0].
    + assert (e = 0) as -> by lia. simpl in Hm. rewrite Z.pow_0_r, Z.mul_1_r.
      rewrite Z.eqb_refl. f_equal. f_equal. lia.
    + rewrite Hm, Z.div_mul by lia. rewrite Z.eqb_refl. reflexivity.
Qed.

(** X15 on the token [1337]. *)
Lemma numberparse_exact_integers_witness :
  numberparse "1337" = Ok (VInt 1337)
  /\ numberparse "9007199254740993" = Ok (VInt 9007199254740992).
Proof.
  split; [|vm_compute; reflexivity].
  apply (numberparse_exact_integers (chars "1337")).
  - discriminate.
  - reflexivity.
  - vm_compute; reflexivity.
Defined.

End ExactIntegers.

(** * Lists of plain words on a line, and rows of timer calls *)

Section PlainListLine.

(** X16: a line whose value is a bracketed list of plain words, with a
    comma and a blank between them, binds the name to the list of the
    words in order, each put through [numberparse] and then [boolparse]
    (provided [numberparse] returns on each of them). *)
Theorem plain_list_line (path : string) (cfg : gmap string value)
  (line name : string) (words : list string)
  (t : list ascii) (ts : list (list ascii)) (vs : list value)
  (out : list string) :
  startswith (rstrip line) "#" = false ->
  split (rstrip line) = name :: words ->
  join " " words = of_chars (render (t :: ts)) ->
  forallb plain (t :: ts) = true ->
  Forall2 (fun tok v => exists v0, numberparse (of_chars tok) = Ok v0
                                   /\ v = boolparse v0) (t :: ts) vs ->
  read_line path cfg line out = (Ok (<[name := VList vs]> cfg), out).
Proof.
  intros Hc Hs Hj Hplain Hvs.
  rewrite (read_line_words path cfg line _ Hc Hs) by discriminate.
  destruct words as [|w0 ws]; [discriminate Hj|].
  assert (startswith w0 "[" = true) as ->.
  { pose proof (split_nonempty (rstrip line)) as Hne. rewrite Hs in Hne.
    inversion Hne as [|? ? _ Hne']; subst. inversion Hne' as [|? ? Hw0 _]; subst.
    destruct w0 as [|c w0]; [congruence|].
    destruct ws as [|w1 ws].
    - cbn [join] in Hj. injection Hj as -> _. reflexivity.
    - rewrite (join_cons " " (String c w0) (w1 :: ws)) in Hj by not_nil.
      change (String c w0 +:+ " " +:+ join " " (w1 :: ws))
        with (String c (w0 +:+ " " +:+ join " " (w1 :: ws))) in Hj.
      injection Hj as -> _. reflexivity. }
  rewrite Hj, (listparse_plain t ts vs Hplain Hvs). reflexivity.
Qed.

(** X16 on the line [sizes [54, 74, 90]]. *)
Lemma plain_list_line_witness :
  read_line "ok.cfg" ∅ "sizes [54, 74, 90]" []
  = (Ok (<["sizes" := VList [VInt 54; VInt 74; VInt 90]]> ∅), []).
Proof.
  apply (plain_list_line "ok.cfg" ∅ "sizes [54, 74, 90]" "sizes"
           ["[54,"; "74,"; "90]"] (chars "54") [chars "74"; chars "90"]);
    try reflexivity.
  repeat constructor; eexists; (split; [vm_compute; reflexivity | reflexivity]).
Defined.

End PlainListLine.

Section TimerWitnesses.
Import Timer.

(** X13 on two laps after a start at zero. *)
Lemma laps_chain_witness :
  stopped_times
    (run (laps [one_second; two_seconds])
         (fst (start (init (S754_zero false)) (S754_zero false))))
  !! LInt 1
  = Some (VFloat two_seconds, VFloat one_second).
Proof.
  apply (proj1 (laps_chain [one_second; two_seconds]
                  (fst (start (init (S754_zero false)) (S754_zero false))))
           1%nat two_seconds).
  reflexivity.
Defined.

(** X14 on two stops after a start at zero. *)
Lemma stops_are_cumulative_witness :
  stopped_times
    (run (stops [one_second; two_seconds])
         (fst (start (init (S754_zero false)) (S754_zero false))))
  !! LInt 1
  = Some (VFloat two_seconds, VFloat (S754_zero false)).
Proof.
  apply (proj1 (stops_are_cumulative [one_second; two_seconds]
                  (fst (start (init (S754_zero false)) (S754_zero false))))
           1%nat two_seconds).
  reflexivity.
Defined.

End TimerWitnesses.
